(** * wg-streams: pull streams and chunks

    A shallow embedding of [lib/pullstream.js] and [lib/chunk.js].

    - A [PullStream] owns a Node [Buffer] (a byte array of fixed length), the
      read position and the buffer length ([maxPosition]).
    - A [Chunk] holds a reference to a stream and its own [maxPosition]; every
      chunk operation reads and advances the position of the shared stream.
      Chunk operations are therefore state transformers over the stream.
    - [throw new Exception(...)] is modelled by the [Throw] completion; the
      stream state reached when the exception is raised is kept, as a JavaScript
      caller catching the exception would observe it.

    - A stream is modelled once populated, that is after the callback of
      [fromFile]: before it, [buffer] and [maxPosition] are undefined.
    - The calls to the logger ([log.debug]) have no effect on the results and
      are left out.

    Numbers are modelled by [Z] (all quantities of the library are integers
    far below 2^53, where JavaScript's double arithmetic is exact), with the
    32-bit wrap-around of the bitwise operators written out.  The arguments
    documented as integers ([length], [n], [expected]) are integers. *)

From Stdlib Require Import ZArith List String Ascii Bool Lia.
From Stdlib Require Import Strings.Byte.
From stdpp Require Import base decidable list.

Local Open Scope Z_scope.

(** ** JavaScript values used by the library *)

Module JS.

(** A Node [Buffer]: a fixed-length array of bytes. *)
Abbreviation Buffer := (list byte).

(** [buffer[i]]: the byte at index [i], or [undefined] ([None]) when [i] is
    not an index of the buffer. *)
Definition get (b : Buffer) (i : Z) : option byte :=
  if decide (0 <= i) then b !! Z.to_nat i else None.

(** The byte stored by [buffer[i] = v] when [v] was itself read from a
    buffer: [undefined] is converted to 0. *)
Definition toUint8 (v : option byte) : byte :=
  match v with Some x => x | None => x00 end.

(** [buffer[i] = v]: writes outside of the buffer are ignored, the buffer
    never grows. *)
Definition set (b : Buffer) (i : Z) (v : option byte) : Buffer :=
  if decide (0 <= i) then <[Z.to_nat i := toUint8 v]> b else b.

(** [buffer.length] *)
Definition len (b : Buffer) : Z := Z.of_nat (length b).

(** A JavaScript number obtained by integer arithmetic: an integer or NaN. *)
Inductive number := Int (z : Z) | NaN.

Definition byteval (x : byte) : Z := Z.of_N (Byte.to_N x).

(** [v === x] for a buffer element [v] and a byte literal [x]. *)
Definition is_byte (v : option byte) (x : byte) : bool :=
  match v with Some y => Byte.eqb y x | None => false end.

(** ToNumber of a buffer element ([undefined] becomes NaN). *)
Definition toNumber (v : option byte) : number :=
  match v with Some x => Int (byteval x) | None => NaN end.

(** Wrap-around to the signed 32-bit range. *)
Definition wrap32 (z : Z) : Z := (z + 2^31) mod 2^32 - 2^31.

(** ToInt32 (NaN becomes 0). *)
Definition toInt32 (n : number) : Z :=
  match n with Int z => wrap32 z | NaN => 0 end.

(** [a << k], for a literal [0 <= k < 32]. *)
Definition shl (a : number) (k : Z) : number :=
  Int (wrap32 (Z.shiftl (toInt32 a) k)).

(** [a & b] *)
Definition and (a b : number) : number :=
  Int (wrap32 (Z.land (toInt32 a) (toInt32 b))).


(** [a + b] on numbers. *)
Definition add (a b : number) : number :=
  match a, b with Int x, Int y => Int (x + y) | _, _ => NaN end.

(** [a === b] on numbers (NaN is different from everything). *)
Definition strict_eq (a b : number) : bool :=
  match a, b with Int x, Int y => x =? y | _, _ => false end.

(** A JavaScript string: its sequence of UTF-16 code units. *)
Definition jsstring := list Z.

(** The JavaScript string with the characters of an ASCII literal. *)
Definition str (s : string) : jsstring :=
  map (fun a => Z.of_N (N_of_ascii a)) (list_ascii_of_string s).

(** The code unit of [String.fromCharCode(v)] for a buffer element [v]
    ([undefined] gives the code unit 0). *)
Definition charCode (v : option byte) : Z :=
  match v with Some x => byteval x | None => 0 end.

(** [String.fromCharCode(v1, ..., vn)] *)
Definition fromCharCode (vs : list (option byte)) : jsstring :=
  map charCode vs.

(** [buffer.slice(start, end)]: negative indices count from the end of the
    buffer, and both indices are clamped to the buffer.  The result, a view
    of the buffer in Node, is taken with the content it has when [slice]
    returns. *)
Definition relative (l i : Z) : Z :=
  if decide (i < 0) then Z.max 0 (l + i) else Z.min i l.

Definition slice (b : Buffer) (start end_ : Z) : Buffer :=
  let s := relative (len b) start in
  let e := relative (len b) end_ in
  take (Z.to_nat (e - s)) (drop (Z.to_nat s) b).

(** The bytes decoded by [buffer.toString(encoding, start, end)]: [end] is
    clamped to the buffer length and the range is empty when
    [end <= start] (so for a negative [end], as in the current versions of
    Node; the library calls it with a [start] that is not negative). *)
Definition toString_range (b : Buffer) (start end_ : Z) : Buffer :=
  let s := Z.max 0 start in
  let e := Z.min end_ (len b) in
  take (Z.to_nat (e - s)) (drop (Z.to_nat s) b).

(** The 'ucs2' decoding: little-endian pairs of bytes, one code unit per
    pair; an unpaired last byte is dropped. *)
Fixpoint ucs2 (l : list byte) : jsstring :=
  match l with
  | lo :: hi :: r => (byteval lo + 256 * byteval hi) :: ucs2 r
  | _ => []
  end.

(** [buffer.toString('ucs2', start, end)] *)
Definition toString_ucs2 (b : Buffer) (start end_ : Z) : jsstring :=
  ucs2 (toString_range b start end_).

End JS.

(** ** Completions and the state-and-exception monad *)

(** The exception of the library [wg-log], as the two modules construct it:
    [new Exception({position, maxPosition, n}, message)] carries the three
    diagnostic fields and a message; [new Exception(message)] carries a
    message only. *)
Record ShortRead := { at_position : Z; at_maxPosition : Z; requested : Z }.

Record Exception := { fields : option ShortRead; message : string }.

Inductive completion (A : Type) :=
| Return (a : A)
| Throw (e : Exception).
Arguments Return {A} a.
Arguments Throw {A} e.

(** A method of an object with state [S]: it returns or throws, and leaves
    a state. *)
Definition M (S A : Type) : Type := S -> completion A * S.

Definition ret {S A} (a : A) : M S A := fun s => (Return a, s).

Definition throw {S A} (e : Exception) : M S A := fun s => (Throw e, s).

Definition bind {S A B} (m : M S A) (k : A -> M S B) : M S B :=
  fun s =>
    match m s with
    | (Return a, s') => k a s'
    | (Throw e, s') => (Throw e, s')
    end.

Notation "'do' x <- m ; k" := (bind m (fun x => k))
  (at level 10, x name, m at level 100, k at level 200).
Notation "m ;; k" := (bind m (fun _ => k))
  (at level 100, k at level 200, right associativity).

Definition fmap {S A B} (f : A -> B) (m : M S A) : M S B :=
  do a <- m ; ret (f a).

Definition returned {A} (c : completion A) : bool :=
  match c with Return _ => true | Throw _ => false end.

(** ** lib/pullstream.js *)

Module PullStream.

(** A populated stream (the state after the callback of [fromFile]). *)
Record t := { buffer : JS.Buffer; position : Z; maxPosition : Z }.

Definition set_position (s : t) (p : Z) : t :=
  {| buffer := buffer s; position := p; maxPosition := maxPosition s |}.

Definition set_buffer (s : t) (b : JS.Buffer) : t :=
  {| buffer := b; position := position s; maxPosition := maxPosition s |}.

(** [fromFile], for a file whose content is [data]. *)
Definition fromFile (data : JS.Buffer) : t :=
  {| buffer := data; position := 0; maxPosition := JS.len data |}.

(** [that.buffer[that.position + i]] *)
Definition at_ (s : t) (i : Z) : option byte := JS.get (buffer s) (position s + i).

(** [that.position = that.position + n] *)
Definition advance (n : Z) : M t unit :=
  fun s => (Return tt, set_position s (position s + n)).

Definition hasMore (n : option Z) (s : t) : bool :=
  let n := match n with None => 1 | Some n => n end in
  let remaining := maxPosition s - position s in
  if decide (n > remaining) then false else true.

Definition ensureCapacity (n : Z) : M t unit :=
  fun s =>
    let remaining := maxPosition s - position s in
    if decide (n > remaining)
    then throw {| fields := Some {| at_position := position s;
                                    at_maxPosition := maxPosition s;
                                    requested := n |};
                  message := "Short read (stream end boundary reached)" |} s
    else ret tt s.

Definition skip (length : Z) : M t unit :=
  if decide (length <= 0) then ret tt
  else ensureCapacity length ;; advance length.

Definition readByte : M t (option byte) :=
  ensureCapacity 1 ;;
  fun s =>
    let byte := at_ s 0 in
    (advance 1 ;; ret byte) s.

Definition readShort : M t JS.number :=
  ensureCapacity 2 ;;
  fun s =>
    let b1 := JS.toNumber (at_ s 0) in
    let b2 := JS.toNumber (at_ s 1) in
    (advance 2 ;; ret (JS.add (JS.shl b1 8) b2)) s.

Definition read3Bytes : M t JS.number :=
  ensureCapacity 3 ;;
  fun s =>
    let b1 := JS.toNumber (at_ s 0) in
    let b2 := JS.toNumber (at_ s 1) in
    let b3 := JS.toNumber (at_ s 2) in
    (advance 3 ;; ret (JS.add (JS.shl (JS.add (JS.shl b1 8) b2) 8) b3)) s.

Definition readLong : M t JS.number :=
  ensureCapacity 4 ;;
  fun s =>
    let b1 := JS.toNumber (at_ s 0) in
    let b2 := JS.toNumber (at_ s 1) in
    let b3 := JS.toNumber (at_ s 2) in
    let b4 := JS.toNumber (at_ s 3) in
    (advance 4 ;;
     ret (JS.add (JS.shl (JS.add (JS.shl (JS.add (JS.shl b1 8) b2) 8) b3) 8) b4)) s.

Definition readASCII3 : M t JS.jsstring :=
  ensureCapacity 3 ;;
  fun s =>
    let b1 := at_ s 0 in
    let b2 := at_ s 1 in
    let b3 := at_ s 2 in
    (advance 3 ;; ret (JS.fromCharCode [b1; b2; b3])) s.

Definition readASCII4 : M t JS.jsstring :=
  ensureCapacity 4 ;;
  fun s =>
    let b1 := at_ s 0 in
    let b2 := at_ s 1 in
    let b3 := at_ s 2 in
    let b4 := at_ s 3 in
    (advance 4 ;; ret (JS.fromCharCode [b1; b2; b3; b4])) s.

(** The loop of [scan3Bytes] ([mask = 0xFFFF]) and of [scanLong]
    ([mask = 0xFFFFFF]), which differ by the mask only.  [fuel] bounds the
    number of iterations; each iteration consumes one byte, so the number of
    remaining bytes is enough fuel ([scan_loop_fuel] below). *)
Fixpoint scan_loop (mask expected : Z) (fuel : nat) (magic : JS.number) : M t bool :=
  fun s =>
    match fuel with
    | O => (Return false, s)
    | S fuel' =>
        if hasMore None s then
          (do b <- readByte ;
           let magic' := JS.add (JS.shl (JS.and magic (JS.Int mask)) 8) (JS.toNumber b) in
           if JS.strict_eq magic' (JS.Int expected) then ret true
           else scan_loop mask expected fuel' magic') s
        else (Return false, s)
    end.

Definition remaining_fuel (s : t) : nat := Z.to_nat (maxPosition s - position s).

Definition scan3Bytes (expected : Z) : M t bool :=
  fun s => scan_loop 0xFFFF expected (remaining_fuel s) (JS.Int 0) s.

Definition scanLong (expected : Z) : M t bool :=
  fun s => scan_loop 0xFFFFFF expected (remaining_fuel s) (JS.Int 0) s.

End PullStream.

(** ** lib/chunk.js *)

Module Chunk.

(** A chunk; its [stream] field is a reference to the shared stream, which
    the operations below take and return as their state. *)
Record t := { name : string; maxPosition : Z }.

(** [new Chunk(name, stream, length)]; [length] is [None] when left
    undefined. *)
Definition new (name : string) (stream : PullStream.t) (length : option Z) : t :=
  match length with
  | None => {| name := name; maxPosition := PullStream.maxPosition stream |}
  | Some length => {| name := name; maxPosition := PullStream.position stream + length |}
  end.

(** [Chunk.prototype.chunk]: [stream] is the stream of the parent [c]. *)
Definition chunk (c : t) (name : string) (length : option Z) (stream : PullStream.t) : t :=
  new name stream length.

Definition hasMore (c : t) (n : option Z) (s : PullStream.t) : bool :=
  let n := match n with None => 1 | Some n => n end in
  let remaining := maxPosition c - PullStream.position s in
  if decide (n > remaining) then false else true.

Definition ensureCapacity (c : t) (n : Z) : M PullStream.t unit :=
  fun s =>
    let remaining := maxPosition c - PullStream.position s in
    if decide (n > remaining)
    then throw {| fields := Some {| at_position := PullStream.position s;
                                    at_maxPosition := maxPosition c;
                                    requested := n |};
                  message := "Short read (chunk end boundary reached)" |} s
    else ret tt s.

Definition skip (c : t) (n : option Z) : M PullStream.t unit :=
  match n with
  | None =>
      fun s =>
        let remaining := maxPosition c - PullStream.position s in
        if decide (remaining <= 0) then ret tt s
        else (ensureCapacity c remaining ;; PullStream.skip remaining) s
  | Some n =>
      if decide (n <= 0) then ret tt
      else ensureCapacity c n ;; PullStream.skip n
  end.

(** [extend] assigns the [maxPosition] field of the chunk; a [maxPosition]
    of 0 is falsy. *)
Definition extend (c : t) (n : Z) : t :=
  if decide (maxPosition c <> 0)
  then {| name := name c; maxPosition := maxPosition c + n |}
  else c.

Definition readByte (c : t) : M PullStream.t (option byte) :=
  ensureCapacity c 1 ;; PullStream.readByte.

Definition readShort (c : t) : M PullStream.t JS.number :=
  ensureCapacity c 2 ;; PullStream.readShort.

Definition read3Bytes (c : t) : M PullStream.t JS.number :=
  ensureCapacity c 3 ;; PullStream.read3Bytes.

Definition readLong (c : t) : M PullStream.t JS.number :=
  ensureCapacity c 4 ;; PullStream.readLong.

Definition readASCII3 (c : t) : M PullStream.t JS.jsstring :=
  ensureCapacity c 3 ;; PullStream.readASCII3.

Definition readASCII4 (c : t) : M PullStream.t JS.jsstring :=
  ensureCapacity c 4 ;; PullStream.readASCII4.

(** How a [while] loop with a [return] in its body ends. *)
Inductive loop_end (A B : Type) :=
| Returned (a : A)
| Exhausted (b : B).
Arguments Returned {A B} a.
Arguments Exhausted {A B} b.

(** The fuel of the string loops: every iteration advances the position by
    at least one, so the distance to [maxPosition] is enough (the lemmas
    [..._loop_fuel] below). *)
Definition fuel (c : t) (s : PullStream.t) : nat :=
  Z.to_nat (maxPosition c - PullStream.position s).

(** *** readZString88591 *)

Fixpoint readZString88591_loop (c : t) (fuel : nat) (str : JS.jsstring)
  : M PullStream.t (loop_end JS.jsstring JS.jsstring) :=
  fun s =>
    match fuel with
    | O => (Return (Exhausted str), s)
    | S fuel' =>
        if decide (maxPosition c - PullStream.position s > 0) then
          let b := PullStream.at_ s 0 in
          let s := PullStream.set_position s (PullStream.position s + 1) in
          if JS.is_byte b x00 then (Return (Returned str), s)
          else readZString88591_loop c fuel' (str ++ JS.fromCharCode [b]) s
        else (Return (Exhausted str), s)
    end.

Definition readZString88591 (c : t) (allowShortRead : bool) : M PullStream.t JS.jsstring :=
  do r <- (fun s => readZString88591_loop c (fuel c s) [] s) ;
  match r with
  | Returned str => ret str
  | Exhausted str =>
      if allowShortRead then ret str
      else throw {| fields := None;
                    message := "Short read (chunk end boundary reached) when reading ISO-8859-1 string" |}
  end.

(** *** readZStringUTF16 *)

(** The copy loop of [_ucs2]. *)
Fixpoint _ucs2_copy (fuel : nat) (buffer : JS.Buffer) (from len i : Z) (b2 : JS.Buffer)
  : JS.Buffer :=
  match fuel with
  | O => b2
  | S fuel' =>
      if decide (i < len - 1) then
        let b2 := JS.set b2 i (JS.get buffer (from + i)) in
        let b2 := JS.set b2 (i + 1) (JS.get buffer (from + i + 1)) in
        _ucs2_copy fuel' buffer from len (i + 2) b2
      else b2
  end.

(** [new Buffer(len)] is taken zero-filled: [_ucs2] overwrites all of it
    but the last byte of an odd [len], which the decoding drops.  Its size
    is never negative ([readZStringUTF16_buffer_size] below). *)
Definition _ucs2 (buffer : JS.Buffer) (from to : Z) (bigEndian : bool) : JS.jsstring :=
  if negb bigEndian then JS.toString_ucs2 buffer from to
  else
    let len := to - from in
    let b2 := replicate (Z.to_nat len) x00 in
    let b2 := _ucs2_copy (Z.to_nat len) buffer from len 0 b2 in
    JS.ucs2 b2.

(** [buffer[i] = v] on the buffer of the stream. *)
Definition poke (s : PullStream.t) (i : Z) (v : option byte) : PullStream.t :=
  PullStream.set_buffer s (JS.set (PullStream.buffer s) i v).

Fixpoint readZStringUTF16_loop (c : t) (fuel : nat) (from : Z) (bigEndian : bool)
  : M PullStream.t (loop_end JS.jsstring (Z * bool)) :=
  fun s =>
    match fuel with
    | O => (Return (Exhausted (from, bigEndian)), s)
    | S fuel' =>
        if decide (maxPosition c - PullStream.position s > 1) then
          let b1 := PullStream.at_ s 0 in
          let b2 := PullStream.at_ s 1 in
          let s := PullStream.set_position s (PullStream.position s + 2) in
          let '(b1, b2, s) :=
            if JS.is_byte b1 xff && JS.is_byte b2 x00 then
              let b2 := b1 in
              let b1 := PullStream.at_ s 0 in
              let s := poke s (PullStream.position s) (Some x00) in
              let s := poke s (PullStream.position s - 1) b1 in
              (b1, b2, s)
            else (b1, b2, s) in
          if JS.is_byte b1 xff && JS.is_byte b2 xfe then
            readZStringUTF16_loop c fuel' (from + 2) bigEndian s
          else if JS.is_byte b1 xfe && JS.is_byte b2 xff then
            readZStringUTF16_loop c fuel' (from + 2) true s
          else if JS.is_byte b1 x00 && JS.is_byte b2 x00 then
            (Return (Returned
               (_ucs2 (PullStream.buffer s) from (PullStream.position s - 2) false)), s)
          else
            let s :=
              if bigEndian then
                let s := poke s (PullStream.position s - 2) b2 in
                poke s (PullStream.position s - 1) b1
              else s in
            readZStringUTF16_loop c fuel' from bigEndian s
        else (Return (Exhausted (from, bigEndian)), s)
    end.

Definition readZStringUTF16 (c : t) (allowShortRead : bool) : M PullStream.t JS.jsstring :=
  do r <- (fun s => readZStringUTF16_loop c (fuel c s) (PullStream.position s) false s) ;
  match r with
  | Returned str => ret str
  | Exhausted (from, bigEndian) =>
      if allowShortRead
      then fun s => ret (_ucs2 (PullStream.buffer s) from (maxPosition c) bigEndian) s
      else throw {| fields := None;
                    message := "Short read (chunk end boundary reached) when reading UTF-16 string" |}
  end.

(** *** readString88591, readStringUTF16, readBuffer *)

Fixpoint readString88591_loop (c : t) (fuel : nat) (str : JS.jsstring)
  : M PullStream.t JS.jsstring :=
  fun s =>
    match fuel with
    | O => (Return str, s)
    | S fuel' =>
        if decide (maxPosition c - PullStream.position s > 0) then
          let b := PullStream.at_ s 0 in
          let s := PullStream.set_position s (PullStream.position s + 1) in
          readString88591_loop c fuel' (str ++ JS.fromCharCode [b]) s
        else (Return str, s)
    end.

Definition readString88591 (c : t) : M PullStream.t JS.jsstring :=
  fun s => readString88591_loop c (fuel c s) [] s.

Definition readStringUTF16 (c : t) : M PullStream.t JS.jsstring :=
  fun s => ret (JS.toString_ucs2 (PullStream.buffer s) (PullStream.position s) (maxPosition c)) s.

Definition readBuffer (c : t) : M PullStream.t JS.Buffer :=
  fun s => ret (JS.slice (PullStream.buffer s) (PullStream.position s) (maxPosition c)) s.

(** *** The UTF-8 readers

    The 'utf8' decoding of Node is a parameter of the development. *)
Section UTF8.

Variable utf8 : list byte -> JS.jsstring.

(** [buffer.toString('utf8', start, end)] *)
Definition toString_utf8 (b : JS.Buffer) (start end_ : Z) : JS.jsstring :=
  utf8 (JS.toString_range b start end_).

Fixpoint readZStringUTF8_loop (c : t) (fuel : nat) (from : Z)
  : M PullStream.t (loop_end JS.jsstring unit) :=
  fun s =>
    match fuel with
    | O => (Return (Exhausted tt), s)
    | S fuel' =>
        if decide (maxPosition c - PullStream.position s >= 1) then
          let b := PullStream.at_ s 0 in
          let s := PullStream.set_position s (PullStream.position s + 1) in
          if JS.is_byte b x00 then
            (Return (Returned
               (toString_utf8 (PullStream.buffer s) from (PullStream.position s - 1))), s)
          else readZStringUTF8_loop c fuel' from s
        else (Return (Exhausted tt), s)
    end.

Definition readZStringUTF8 (c : t) (allowShortRead : bool) : M PullStream.t JS.jsstring :=
  fun s0 =>
    let from := PullStream.position s0 in
    (do r <- readZStringUTF8_loop c (fuel c s0) from ;
     match r with
     | Returned str => ret str
     | Exhausted _ =>
         if allowShortRead
         then fun s => ret (toString_utf8 (PullStream.buffer s) from (maxPosition c)) s
         else throw {| fields := None;
                       message := "Short read (chunk end boundary reached) when reading UTF-8 string" |}
     end) s0.

Definition readStringUTF8 (c : t) : M PullStream.t JS.jsstring :=
  fun s => ret (toString_utf8 (PullStream.buffer s) (PullStream.position s) (maxPosition c)) s.

End UTF8.

End Chunk.

(** [PullStream.prototype.chunk] *)
Definition PullStream_chunk (name : string) (length : option Z) (stream : PullStream.t) : Chunk.t :=
  Chunk.new name stream length.

(** ** Sequences of operations on a stream and the chunks derived from it *)

(** The fixed-width reads, which exist on streams and on chunks. *)
Inductive fixed := FByte | FShort | F3Bytes | FLong | FASCII3 | FASCII4.

Definition width (f : fixed) : Z :=
  match f with
  | FByte => 1 | FShort => 2 | F3Bytes => 3 | FLong => 4 | FASCII3 => 3 | FASCII4 => 4
  end.

(** What an operation returns. *)
Inductive value :=
| VUnit
| VBool (b : bool)
| VByte (b : option byte)
| VNumber (n : JS.number)
| VString (str : JS.jsstring)
| VBuffer (b : JS.Buffer).

Definition PullStream_read (f : fixed) : M PullStream.t value :=
  match f with
  | FByte => fmap VByte PullStream.readByte
  | FShort => fmap VNumber PullStream.readShort
  | F3Bytes => fmap VNumber PullStream.read3Bytes
  | FLong => fmap VNumber PullStream.readLong
  | FASCII3 => fmap VString PullStream.readASCII3
  | FASCII4 => fmap VString PullStream.readASCII4
  end.

Definition Chunk_read (c : Chunk.t) (f : fixed) : M PullStream.t value :=
  match f with
  | FByte => fmap VByte (Chunk.readByte c)
  | FShort => fmap VNumber (Chunk.readShort c)
  | F3Bytes => fmap VNumber (Chunk.read3Bytes c)
  | FLong => fmap VNumber (Chunk.readLong c)
  | FASCII3 => fmap VString (Chunk.readASCII3 c)
  | FASCII4 => fmap VString (Chunk.readASCII4 c)
  end.

(** The reads of a chunk that decode text or return the rest of the chunk. *)
Inductive text :=
| ZString88591 (allowShortRead : bool)
| ZStringUTF16 (allowShortRead : bool)
| ZStringUTF8 (allowShortRead : bool)
| String88591
| StringUTF8
| StringUTF16
| ReadBuffer.

Inductive StreamOp :=
| SHasMore (n : option Z)
| SSkip (n : Z)
| SRead (f : fixed)
| SScan3Bytes (expected : Z)
| SScanLong (expected : Z).

Inductive ChunkOp :=
| CHasMore (n : option Z)
| CSkip (n : option Z)
| CRead (f : fixed)
| CText (r : text).

(** The chunks are objects that refer to the one stream: [NewChunk] is
    [stream.chunk(name, length)], [SubChunk i] is [chunk.chunk(name, length)]
    on the [i]-th chunk created, [Extend i] its [extend]. *)
Inductive Op :=
| NewChunk (name : string) (length : option Z)
| SubChunk (i : nat) (name : string) (length : option Z)
| Extend (i : nat) (n : Z)
| OnStream (o : StreamOp)
| OnChunk (i : nat) (o : ChunkOp).

Record World := { stream : PullStream.t; chunks : list Chunk.t }.

Section Run.

Variable utf8 : list byte -> JS.jsstring.

Definition Chunk_text (c : Chunk.t) (r : text) : M PullStream.t value :=
  match r with
  | ZString88591 a => fmap VString (Chunk.readZString88591 c a)
  | ZStringUTF16 a => fmap VString (Chunk.readZStringUTF16 c a)
  | ZStringUTF8 a => fmap VString (Chunk.readZStringUTF8 utf8 c a)
  | String88591 => fmap VString (Chunk.readString88591 c)
  | StringUTF8 => fmap VString (Chunk.readStringUTF8 utf8 c)
  | StringUTF16 => fmap VString (Chunk.readStringUTF16 c)
  | ReadBuffer => fmap VBuffer (Chunk.readBuffer c)
  end.

Definition stream_op (o : StreamOp) : M PullStream.t value :=
  match o with
  | SHasMore n => fun s => ret (VBool (PullStream.hasMore n s)) s
  | SSkip n => fmap (fun _ => VUnit) (PullStream.skip n)
  | SRead f => PullStream_read f
  | SScan3Bytes x => fmap VBool (PullStream.scan3Bytes x)
  | SScanLong x => fmap VBool (PullStream.scanLong x)
  end.

Definition chunk_op (c : Chunk.t) (o : ChunkOp) : M PullStream.t value :=
  match o with
  | CHasMore n => fun s => ret (VBool (Chunk.hasMore c n s)) s
  | CSkip n => fmap (fun _ => VUnit) (Chunk.skip c n)
  | CRead f => Chunk_read c f
  | CText r => Chunk_text c r
  end.

(** One operation; an operation on a chunk that was never created does
    nothing. *)
Definition exec (o : Op) : M World value :=
  fun w =>
    match o with
    | NewChunk name length =>
        (Return VUnit,
         {| stream := stream w;
            chunks := chunks w ++ [PullStream_chunk name length (stream w)] |})
    | SubChunk i name length =>
        match chunks w !! i with
        | Some c =>
            (Return VUnit,
             {| stream := stream w;
                chunks := chunks w ++ [Chunk.chunk c name length (stream w)] |})
        | None => (Return VUnit, w)
        end
    | Extend i n =>
        match chunks w !! i with
        | Some c =>
            (Return VUnit,
             {| stream := stream w; chunks := <[i := Chunk.extend c n]> (chunks w) |})
        | None => (Return VUnit, w)
        end
    | OnStream o =>
        let '(r, s) := stream_op o (stream w) in
        (r, {| stream := s; chunks := chunks w |})
    | OnChunk i o =>
        match chunks w !! i with
        | Some c =>
            let '(r, s) := chunk_op c o (stream w) in
            (r, {| stream := s; chunks := chunks w |})
        | None => (Return VUnit, w)
        end
    end.

(** A sequence of operations, the caller catching every exception and
    going on. *)
Fixpoint run (ops : list Op) (w : World) : World :=
  match ops with
  | [] => w
  | o :: ops => run ops (snd (exec o w))
  end.

(** The text reads that advance the position. *)
Definition advancing (r : text) : bool :=
  match r with
  | ZString88591 _ | ZStringUTF16 _ | ZStringUTF8 _ | String88591 => true
  | StringUTF8 | StringUTF16 | ReadBuffer => false
  end.

(** [text_within o w]: if [o] is a text read that advances the position, it
    is issued through a chunk whose [maxPosition] is at most the length of
    the stream. *)
Definition text_within (o : Op) (w : World) : Prop :=
  match o with
  | OnChunk i (CText r) =>
      advancing r = true ->
      forall c, chunks w !! i = Some c ->
                Chunk.maxPosition c <= PullStream.maxPosition (stream w)
  | _ => True
  end.

(** [guarded ops w]: [text_within] holds for every operation in the run of
    [ops] from [w]. *)
Fixpoint guarded (ops : list Op) (w : World) : Prop :=
  match ops with
  | [] => True
  | o :: ops => text_within o w /\ guarded ops (snd (exec o w))
  end.

End Run.

(** A world with a stream just read from a file and no chunk. *)
Definition loaded (data : JS.Buffer) : World :=
  {| stream := PullStream.fromFile data; chunks := [] |}.

(** ** How the operations move the position *)

Import PullStream (buffer, position, maxPosition).

(** [moves bnd s s']: from [s] to [s'] the buffer keeps its length, the
    position does not decrease, and it does not pass [bnd] unless it was
    already beyond. *)
Record moves (bnd : Z) (s s' : PullStream.t) : Prop := {
  moves_max : maxPosition s' = maxPosition s;
  moves_len : JS.len (buffer s') = JS.len (buffer s);
  moves_fwd : position s <= position s';
  moves_bnd : position s' <= Z.max (position s) bnd }.

(** [stays bnd m]: the operation [m] moves the position within [bnd]. *)
Definition stays {A} (bnd : PullStream.t -> Z) (m : M PullStream.t A) : Prop :=
  forall s, moves (bnd s) s (snd (m s)).

Definition stable (bnd : PullStream.t -> Z) : Prop :=
  forall b s s', moves b s s' -> bnd s' = bnd s.

(** ** Invariants *)

(** The position of a stream is within its buffer. *)
Definition in_bounds (s : PullStream.t) : Prop :=
  0 <= position s <= maxPosition s.

(** The stream is as [fromFile] and the reads leave it: [maxPosition] is the
    length of the buffer, and the position is not negative. *)
Definition populated (s : PullStream.t) : Prop :=
  maxPosition s = JS.len (buffer s) /\ 0 <= position s.



Section Requests.

Variable utf8 : list byte -> JS.jsstring.


End Requests.

(** A decoder to run the operations with: it is the UTF-8 decoding on ASCII
    bytes. *)
Definition ascii_only (l : list byte) : JS.jsstring := map JS.byteval l.

(** ** Short reads *)

(** The exception of [PullStream.prototype.ensureCapacity]. *)
Definition stream_short_read (s : PullStream.t) (n : Z) : Exception :=
  {| fields := Some {| at_position := position s;
                       at_maxPosition := maxPosition s;
                       requested := n |};
     message := "Short read (stream end boundary reached)" |}.

(** The exception of [Chunk.prototype.ensureCapacity]. *)
Definition chunk_short_read (c : Chunk.t) (s : PullStream.t) (n : Z) : Exception :=
  {| fields := Some {| at_position := position s;
                       at_maxPosition := Chunk.maxPosition c;
                       requested := n |};
     message := "Short read (chunk end boundary reached)" |}.

(** A read or a skip of a number of bytes, on the stream or through a
    chunk. *)
Inductive request :=
| StreamRead (f : fixed)
| StreamSkip (n : Z)
| ChunkRead (c : Chunk.t) (f : fixed)
| ChunkSkip (c : Chunk.t) (n : option Z).

Definition perform (q : request) : M PullStream.t value :=
  match q with
  | StreamRead f => PullStream_read f
  | StreamSkip n => fmap (fun _ => VUnit) (PullStream.skip n)
  | ChunkRead c f => Chunk_read c f
  | ChunkSkip c n => fmap (fun _ => VUnit) (Chunk.skip c n)
  end.

(** The number of bytes requested ([chunk.skip()] requests the rest of the
    chunk). *)
Definition bytes (q : request) (s : PullStream.t) : Z :=
  match q with
  | StreamRead f | ChunkRead _ f => width f
  | StreamSkip n | ChunkSkip _ (Some n) => n
  | ChunkSkip c None => Chunk.maxPosition c - position s
  end.

(** The bounds that are active for a request: the length of the stream, and
    the bound of the chunk when there is one. *)
Definition bounds (q : request) (s : PullStream.t) : list Z :=
  match q with
  | StreamRead _ | StreamSkip _ => [maxPosition s]
  | ChunkRead c _ | ChunkSkip c _ => [Chunk.maxPosition c; maxPosition s]
  end.

(** [short_read s n r]: the completion and state [r] of an operation started
    in [s] is a short-read exception that carries the position of [s], a
    bound with fewer than [n] bytes before it, and [n]; and the state is
    [s]. *)
Definition short_read {A} (s : PullStream.t) (n : Z) (r : completion A * PullStream.t) : Prop :=
  exists e bound,
    r = (Throw e, s) /\
    fields e = Some {| at_position := position s; at_maxPosition := bound; requested := n |} /\
    bound - position s < n.

(** The null-terminated reads of a chunk. *)
Inductive zstring := Z88591 | ZUTF8 | ZUTF16.

Definition readZString (utf8 : list byte -> JS.jsstring) (z : zstring) (c : Chunk.t)
    (allowShortRead : bool) : M PullStream.t JS.jsstring :=
  match z with
  | Z88591 => Chunk.readZString88591 c allowShortRead
  | ZUTF8 => Chunk.readZStringUTF8 utf8 c allowShortRead
  | ZUTF16 => Chunk.readZStringUTF16 c allowShortRead
  end.

(** The width of the terminator. *)
Definition terminator (z : zstring) : Z :=
  match z with Z88591 | ZUTF8 => 1 | ZUTF16 => 2 end.

(** ** Big-endian integers *)

(** The fold [sum = sum * 256 + nextByte] over the bytes read. *)
Definition be_fold (bs : list byte) : Z :=
  fold_left (fun sum b => sum * 256 + JS.byteval b) bs 0.


(** ** The rest of a chunk *)

(** The bytes of a buffer at the indices [i] with [from <= i < to]. *)
Definition byte_range (b : JS.Buffer) (from to : Z) : JS.Buffer :=
  take (Z.to_nat (to - from)) (drop (Z.to_nat from) b).

(** The ISO-8859-1 decoding: one code unit per byte. *)
Definition latin1 (l : list byte) : JS.jsstring := map JS.byteval l.


(** ** Scanning *)


#[global] Instance byte_eq_dec : EqDecision byte := Byte.byte_eq_dec.


(** The pattern [X] occurs in [l] at the offset [k]. *)
Definition occurs_at (X l : list byte) (k : nat) : Prop :=
  take (length X) (drop k l) = X.

(** The offset [k] is the first one at which [X] occurs in [l]. *)
Definition first_at (X l : list byte) (k : nat) : Prop :=
  occurs_at X l k /\ forall j, (j < k)%nat -> ~ occurs_at X l j.

(** ** UTF-16 text *)









(** ** Operations that write into the buffer *)

(** [readZStringUTF16] is the one operation with assignments to the
    buffer. *)
Definition rewrites (o : Op) : bool :=
  match o with
  | OnChunk _ (CText (ZStringUTF16 _)) => true
  | _ => false
  end.

(** [keeps_buffer m]: the operation [m] leaves the content of the buffer as
    it is. *)
Definition keeps_buffer {A} (m : M PullStream.t A) : Prop :=
  forall s, buffer (snd (m s)) = buffer s.

(** ** The values of the fixed-width reads *)

(** What a fixed-width read returns on the bytes [l] it consumes. *)
Definition decode (f : fixed) (l : list byte) : value :=
  match f with
  | FByte => VByte (head l)
  | FShort | F3Bytes => VNumber (JS.Int (be_fold l))
  | FLong => VNumber (JS.Int (JS.wrap32 (be_fold l)))
  | FASCII3 | FASCII4 => VString (latin1 l)
  end.

(** ** Operations through one chunk *)

(** A sequence of operations issued through the chunk [c], the caller
    catching every exception and going on. *)
Definition through (utf8 : list byte -> JS.jsstring) (c : Chunk.t) (ops : list ChunkOp)
    (s : PullStream.t) : PullStream.t :=
  fold_left (fun s o => snd (chunk_op utf8 c o s)) ops s.

(** * Properties *)

(** ** Tests of the repository and of its documentation *)

Example pullstream_test :
  let s0 := PullStream.fromFile [x50; x75; x6c; x6c; x20; x63; x6f] in
  let '(r1, s1) := PullStream.readByte s0 in
  let '(r2, s2) := PullStream.readByte s1 in
  let '(r3, s3) := PullStream.readShort s2 in
  (r1, r2, r3, PullStream.position s3) =
  (Return (Some x50), Return (Some x75), Return (JS.Int 0x6C6C), 4).
Proof. reflexivity. Qed.

Example utf16_be_test :
  let s0 := PullStream.fromFile [xfe; xff; x00; x41; x00; x00] in
  let c := PullStream_chunk "w" None s0 in
  let '(r, s1) := Chunk.readZStringUTF16 c false s0 in
  (r, PullStream.position s1) = (Return (JS.str "A"), 6).
Proof. vm_compute. reflexivity. Qed.

(** ** The operations move the position forward, within their bound *)

Lemma moves_refl bnd s : moves bnd s s.
Proof. split; lia. Qed.

Lemma moves_trans bnd s1 s2 s3 : moves bnd s1 s2 -> moves bnd s2 s3 -> moves bnd s1 s3.
Proof. intros [] []. split; lia. Qed.

Lemma moves_weaken bnd bnd' s s' : bnd <= bnd' -> moves bnd s s' -> moves bnd' s s'.
Proof. intros ? []. split; lia. Qed.

Lemma stable_maxPosition : stable maxPosition.
Proof. intros b s s' []. assumption. Qed.

Lemma stable_const z : stable (fun _ => z).
Proof. intros b s s' _. reflexivity. Qed.

Lemma stays_bind {A B} bnd (m : M PullStream.t A) (k : A -> M PullStream.t B) :
  stable bnd -> stays bnd m -> (forall a, stays bnd (k a)) -> stays bnd (bind m k).
Proof.
  intros Hb Hm Hk s. unfold bind. specialize (Hm s).
  destruct (m s) as [[a|e] s1]; simpl in *; [|assumption].
  eapply moves_trans; [eassumption|].
  rewrite <- (Hb _ _ _ Hm). apply Hk.
Qed.

Lemma stays_ret {A} bnd (a : A) : stays bnd (ret a).
Proof. intros s. apply moves_refl. Qed.

Lemma stays_throw {A} bnd e : stays bnd (@throw _ A e).
Proof. intros s. apply moves_refl. Qed.

Lemma stays_fmap {A B} bnd (f : A -> B) m : stable bnd -> stays bnd m -> stays bnd (fmap f m).
Proof. intros. apply stays_bind; auto using stays_ret. Qed.

Lemma stays_weaken {A} (bnd bnd' : PullStream.t -> Z) (m : M PullStream.t A) :
  (forall s, bnd s <= bnd' s) -> stays bnd m -> stays bnd' m.
Proof. intros H Hm s. eapply moves_weaken; [apply H | apply Hm]. Qed.

(** A capacity check followed by an advance of the same size. *)
Lemma stays_checked_advance {A} n (k : PullStream.t -> A) :
  0 <= n ->
  stays maxPosition
    (PullStream.ensureCapacity n ;; fun s => (PullStream.advance n ;; ret (k s)) s).
Proof.
  intros Hn s. unfold bind, PullStream.ensureCapacity, PullStream.advance, throw, ret.
  case_decide; simpl; split; simpl; lia.
Qed.

Lemma stays_stream_ensureCapacity bnd n : stays bnd (PullStream.ensureCapacity n).
Proof.
  intros s. unfold PullStream.ensureCapacity. case_decide; apply moves_refl.
Qed.

Lemma stays_stream_skip n : stays maxPosition (PullStream.skip n).
Proof.
  unfold PullStream.skip. case_decide; [apply stays_ret|].
  intros s. unfold bind, PullStream.ensureCapacity, PullStream.advance, throw, ret.
  case_decide; simpl; split; simpl; lia.
Qed.

Lemma stays_stream_read f : stays maxPosition (PullStream_read f).
Proof.
  destruct f; apply stays_fmap; try apply stable_maxPosition;
    apply (stays_checked_advance _ _); lia.
Qed.

Lemma stays_scan_loop mask expected fuel magic :
  stays maxPosition (PullStream.scan_loop mask expected fuel magic).
Proof.
  revert magic. induction fuel as [|fuel IH]; intros magic s; simpl.
  - apply moves_refl.
  - destruct (PullStream.hasMore None s); [|apply moves_refl].
    revert s. apply stays_bind.
    + apply stable_maxPosition.
    + apply (stays_checked_advance 1 (fun s => PullStream.at_ s 0)). lia.
    + intros b. destruct (JS.strict_eq _ _); [apply stays_ret | apply IH].
Qed.

Lemma stays_stream_scan3Bytes x : stays maxPosition (PullStream.scan3Bytes x).
Proof. intros s. apply stays_scan_loop. Qed.

Lemma stays_stream_scanLong x : stays maxPosition (PullStream.scanLong x).
Proof. intros s. apply stays_scan_loop. Qed.

Lemma stays_chunk_ensureCapacity bnd c n : stays bnd (Chunk.ensureCapacity c n).
Proof.
  intros s. unfold Chunk.ensureCapacity. case_decide; apply moves_refl.
Qed.

Lemma stays_chunk_skip c n : stays maxPosition (Chunk.skip c n).
Proof.
  destruct n as [n|]; simpl.
  - case_decide; [apply stays_ret|].
    apply stays_bind; auto using stable_maxPosition, stays_chunk_ensureCapacity,
      stays_stream_skip.
  - intros s. case_decide; [apply moves_refl|].
    apply (stays_bind maxPosition (Chunk.ensureCapacity c _) (fun _ => PullStream.skip _));
      auto using stable_maxPosition, stays_chunk_ensureCapacity, stays_stream_skip.
Qed.

Lemma len_set b i v : JS.len (JS.set b i v) = JS.len b.
Proof. unfold JS.set, JS.len. case_decide; [rewrite length_insert|]; reflexivity. Qed.

Lemma moves_poke bnd s i v : moves bnd s (Chunk.poke s i v).
Proof. split; simpl; try lia. apply len_set. Qed.

Lemma moves_set_position bnd s p :
  position s <= p <= Z.max (position s) bnd -> moves bnd s (PullStream.set_position s p).
Proof. intros. split; simpl; lia. Qed.

Lemma stays_readZString88591_loop c fuel str :
  stays (fun _ => Chunk.maxPosition c) (Chunk.readZString88591_loop c fuel str).
Proof.
  revert str. induction fuel as [|fuel IH]; intros str s; simpl; [apply moves_refl|].
  case_decide; [|apply moves_refl].
  assert (moves (Chunk.maxPosition c) s (PullStream.set_position s (position s + 1)))
    by (apply moves_set_position; lia).
  destruct (JS.is_byte _ _); simpl; [assumption|].
  eapply moves_trans; [eassumption | apply IH].
Qed.

Lemma stays_readString88591_loop c fuel str :
  stays (fun _ => Chunk.maxPosition c) (Chunk.readString88591_loop c fuel str).
Proof.
  revert str. induction fuel as [|fuel IH]; intros str s; simpl; [apply moves_refl|].
  case_decide; [|apply moves_refl].
  eapply moves_trans; [|apply IH]. apply moves_set_position; simpl; lia.
Qed.

Lemma stays_readZStringUTF8_loop utf8 c fuel from :
  stays (fun _ => Chunk.maxPosition c) (Chunk.readZStringUTF8_loop utf8 c fuel from).
Proof.
  induction fuel as [|fuel IH]; intros s; simpl; [apply moves_refl|].
  case_decide; [|apply moves_refl].
  assert (moves (Chunk.maxPosition c) s (PullStream.set_position s (position s + 1)))
    by (apply moves_set_position; lia).
  destruct (JS.is_byte _ _); simpl; [assumption|].
  eapply moves_trans; [eassumption | apply IH].
Qed.

Lemma stays_readZStringUTF16_loop c fuel from bigEndian :
  stays (fun _ => Chunk.maxPosition c) (Chunk.readZStringUTF16_loop c fuel from bigEndian).
Proof.
  revert from bigEndian. induction fuel as [|fuel IH]; intros from bigEndian s; simpl;
    [apply moves_refl|].
  case_decide; [|apply moves_refl].
  assert (moves (Chunk.maxPosition c) s (PullStream.set_position s (position s + 2)))
    by (apply moves_set_position; lia).
  repeat match goal with
         | |- context [if ?b then _ else _] => destruct b
         end; simpl;
    repeat (eapply moves_trans; [|apply IH]);
    repeat (eapply moves_trans; [|apply moves_poke]); assumption.
Qed.

Lemma stays_chunk_text utf8 c r :
  stays (fun _ => Chunk.maxPosition c) (Chunk_text utf8 c r).
Proof.
  pose proof (stable_const (Chunk.maxPosition c)) as Hst.
  destruct r; apply stays_fmap; try assumption.
  - apply stays_bind; try assumption.
    + intros s. apply stays_readZString88591_loop.
    + intros [str|str]; [apply stays_ret|]. destruct allowShortRead; [apply stays_ret|apply stays_throw].
  - apply stays_bind; try assumption.
    + intros s. apply stays_readZStringUTF16_loop.
    + intros [str|[from be]]; [apply stays_ret|].
      destruct allowShortRead; [|apply stays_throw]. intros s. apply moves_refl.
  - intros s. unfold Chunk.readZStringUTF8.
    apply (stays_bind (fun _ => Chunk.maxPosition c)); try assumption.
    + apply stays_readZStringUTF8_loop.
    + intros [str|[]]; [apply stays_ret|].
      destruct allowShortRead; [|apply stays_throw]. intros s'. apply moves_refl.
  - intros s. apply stays_readString88591_loop.
  - intros s. apply moves_refl.
  - intros s. apply moves_refl.
  - intros s. apply moves_refl.
Qed.

Lemma stays_chunk_read c f : stays maxPosition (Chunk_read c f).
Proof.
  destruct f; apply stays_fmap; try apply stable_maxPosition;
    (apply stays_bind; [apply stable_maxPosition | apply stays_chunk_ensureCapacity |]);
    intros _; apply (stays_checked_advance _ _); lia.
Qed.

(** ** Runs of operations *)

Section RunProperties.

Variable utf8 : list byte -> JS.jsstring.

Lemma stays_stream_op o : stays maxPosition (stream_op o).
Proof.
  destruct o; simpl.
  - intros s. apply moves_refl.
  - apply stays_fmap; [apply stable_maxPosition | apply stays_stream_skip].
  - apply stays_stream_read.
  - apply stays_fmap; [apply stable_maxPosition | apply stays_stream_scan3Bytes].
  - apply stays_fmap; [apply stable_maxPosition | apply stays_stream_scanLong].
Qed.

(** Every operation of a chunk keeps the position within the larger of the
    length of the stream and the bound of the chunk. *)
Lemma stays_chunk_op c o :
  stays (fun s => Z.max (maxPosition s) (Chunk.maxPosition c)) (chunk_op utf8 c o).
Proof.
  destruct o; simpl.
  - intros s. apply moves_refl.
  - eapply stays_weaken; [|apply stays_fmap; [apply stable_maxPosition | apply stays_chunk_skip]].
    intros s; simpl; lia.
  - eapply stays_weaken; [|apply stays_chunk_read]. intros s; simpl; lia.
  - eapply stays_weaken; [|apply stays_chunk_text]. intros s; simpl; lia.
Qed.

(** All operations but the text reads keep the position within the stream. *)
Lemma stays_chunk_op_fixed c o :
  (forall r, o <> CText r) -> stays maxPosition (chunk_op utf8 c o).
Proof.
  intros Ho. destruct o; simpl.
  - intros s. apply moves_refl.
  - apply stays_fmap; [apply stable_maxPosition | apply stays_chunk_skip].
  - apply stays_chunk_read.
  - destruct (Ho r). reflexivity.
Qed.

Lemma exec_forward o w :
  exists bnd, moves bnd (stream w) (stream (snd (exec utf8 o w))).
Proof.
  destruct o as [name l|i name l|i n|o|i o]; simpl;
    try (destruct (chunks w !! i) as [c|]); simpl;
    try (exists 0; apply moves_refl).
  - exists (maxPosition (stream w)). pose proof (stays_stream_op o (stream w)) as H.
    destruct (stream_op o (stream w)); exact H.
  - eexists. pose proof (stays_chunk_op c o (stream w)) as H.
    destruct (chunk_op utf8 c o (stream w)); exact H.
Qed.

Lemma exec_within o w :
  text_within o w ->
  moves (maxPosition (stream w)) (stream w) (stream (snd (exec utf8 o w))).
Proof.
  intros Hg.
  destruct o as [name l|i name l|i n|o|i o]; simpl;
    try (destruct (chunks w !! i) as [c|] eqn:Hc); simpl;
    try apply moves_refl.
  - pose proof (stays_stream_op o (stream w)) as H.
    destruct (stream_op o (stream w)); exact H.
  - destruct o as [n|n|f|r].
    + apply moves_refl.
    + pose proof (stays_chunk_op_fixed c (CSkip n)) as H.
      specialize (H ltac:(discriminate) (stream w)).
      destruct (chunk_op utf8 c (CSkip n) (stream w)); exact H.
    + pose proof (stays_chunk_op_fixed c (CRead f)) as H.
      specialize (H ltac:(discriminate) (stream w)).
      destruct (chunk_op utf8 c (CRead f) (stream w)); exact H.
    + simpl in Hg. destruct (advancing r) eqn:Hr.
      * specialize (Hg eq_refl c Hc).
        pose proof (stays_chunk_text utf8 c r (stream w)) as H.
        simpl. destruct (Chunk_text utf8 c r (stream w)); simpl in *.
        eapply moves_weaken; eassumption.
      * destruct r; try discriminate Hr; apply moves_refl.
Qed.

Lemma run_forward ops w :
  maxPosition (stream (run utf8 ops w)) = maxPosition (stream w) /\
  JS.len (buffer (stream (run utf8 ops w))) = JS.len (buffer (stream w)) /\
  position (stream w) <= position (stream (run utf8 ops w)).
Proof.
  revert w. induction ops as [|o ops IH]; intros w; simpl; [lia|].
  destruct (exec_forward o w) as [bnd []].
  destruct (IH (snd (exec utf8 o w))) as (? & ? & ?). lia.
Qed.

Lemma run_within ops w :
  guarded utf8 ops w ->
  moves (maxPosition (stream w)) (stream w) (stream (run utf8 ops w)).
Proof.
  revert w. induction ops as [|o ops IH]; intros w; simpl; [intros; apply moves_refl|].
  intros [Ho Hg]. apply exec_within in Ho. specialize (IH _ Hg).
  eapply moves_trans; [eassumption|].
  destruct Ho as [Hmax _ _ _]. rewrite <- Hmax. exact IH.
Qed.

End RunProperties.

(** ** Reachable streams are populated *)

Lemma loaded_populated data : populated (stream (loaded data)).
Proof. split; [reflexivity | simpl; lia]. Qed.

Lemma run_populated utf8 ops w :
  populated (stream w) -> populated (stream (run utf8 ops w)).
Proof.
  intros [Hm Hp]. destruct (run_forward utf8 ops w) as (Hmax & Hlen & Hpos).
  split; [rewrite Hmax, Hlen; assumption | lia].
Qed.

(** ** The position and the length of the stream (C1) *)

(** C1, as stated, fails: a text read through a chunk whose length was
    requested beyond the end of the buffer advances the position of the
    stream past its length.  Here the buffer has one byte, the chunk is
    created with length 3 and [readString88591] leaves the position at 3. *)
Lemma text_read_passes_stream_end :
  ~ (forall utf8 data ops, in_bounds (stream (run utf8 ops (loaded data)))).
Proof.
  intros H.
  specialize (H ascii_only [x41] [NewChunk "c" (Some 3); OnChunk 0 (CText String88591)]).
  vm_compute in H. destruct H as [_ H]. apply H. reflexivity.
Qed.

(** C1 (amended): for every stream read from a file and every sequence of
    operations on it and on the chunks derived from it, the position is never
    negative and the length is unchanged; and [position <= length] holds
    after every sequence whose text reads that advance it (readZString88591,
    readZStringUTF8, readZStringUTF16, readString88591) are issued through
    chunks whose bound is at most the length of the stream: the
    operations of the stream and the fixed-width reads and skips of a chunk
    check the capacity of the stream before they advance, the text reads of a
    chunk check the bound of the chunk only. *)
Theorem position_within_stream utf8 data ops :
  let w := run utf8 ops (loaded data) in
  0 <= position (stream w) /\
  maxPosition (stream w) = JS.len data /\
  (guarded utf8 ops (loaded data) -> position (stream w) <= maxPosition (stream w)).
Proof.
  simpl. destruct (run_forward utf8 ops (loaded data)) as (Hmax & _ & Hpos).
  simpl in *. repeat split; [lia | assumption |].
  intros Hg. apply run_within in Hg. destruct Hg as [? _ _ Hb]. simpl in *.
  pose proof (Nat2Z.is_nonneg (length data)). unfold JS.len in *. lia.
Qed.

Lemma position_within_stream_witness :
  let ops := [NewChunk "c" (Some 4); OnChunk 0 (CText (ZString88591 true));
              OnStream (SRead FByte)] in
  let w := run ascii_only ops (loaded [x50; x75; x6c; x6c; x00]) in
  position (stream w) <= maxPosition (stream w).
Proof.
  apply (position_within_stream ascii_only [x50; x75; x6c; x6c; x00]
           [NewChunk "c" (Some 4); OnChunk 0 (CText (ZString88591 true));
            OnStream (SRead FByte)]).
  simpl. repeat split. intros _ c Hc. inversion Hc. unfold JS.len. simpl. lia.
Defined.

(** ** The bound of a chunk and the length of the stream (C3) *)


Section ChunkBounds.

Variable utf8 : list byte -> JS.jsstring.



End ChunkBounds.



(** ** The fixed-width reads and the skips *)

Lemma ensureCapacity_ok n s :
  n <= maxPosition s - position s -> PullStream.ensureCapacity n s = (Return tt, s).
Proof. intros. unfold PullStream.ensureCapacity. case_decide; [lia|reflexivity]. Qed.

Lemma ensureCapacity_short n s :
  n > maxPosition s - position s ->
  PullStream.ensureCapacity n s = (Throw (stream_short_read s n), s).
Proof. intros. unfold PullStream.ensureCapacity. case_decide; [reflexivity|lia]. Qed.

Lemma chunk_ensureCapacity_ok c n s :
  n <= Chunk.maxPosition c - position s -> Chunk.ensureCapacity c n s = (Return tt, s).
Proof. intros. unfold Chunk.ensureCapacity. case_decide; [lia|reflexivity]. Qed.

Lemma chunk_ensureCapacity_short c n s :
  n > Chunk.maxPosition c - position s ->
  Chunk.ensureCapacity c n s = (Throw (chunk_short_read c s n), s).
Proof. intros. unfold Chunk.ensureCapacity. case_decide; [reflexivity|lia]. Qed.

Lemma PullStream_read_ok f s :
  width f <= maxPosition s - position s ->
  exists v, PullStream_read f s = (Return v, PullStream.set_position s (position s + width f)).
Proof.
  intros H. destruct f; simpl in H; eexists;
    cbv beta iota delta [PullStream_read fmap bind PullStream.readByte PullStream.readShort
      PullStream.read3Bytes PullStream.readLong PullStream.readASCII3 PullStream.readASCII4];
    rewrite ensureCapacity_ok by assumption; reflexivity.
Qed.

Lemma PullStream_read_short f s :
  width f > maxPosition s - position s ->
  PullStream_read f s = (Throw (stream_short_read s (width f)), s).
Proof.
  intros H. destruct f; simpl in H;
    cbv beta iota delta [PullStream_read fmap bind PullStream.readByte PullStream.readShort
      PullStream.read3Bytes PullStream.readLong PullStream.readASCII3 PullStream.readASCII4];
    rewrite ensureCapacity_short by assumption; reflexivity.
Qed.

Lemma Chunk_read_unfold c f s :
  Chunk_read c f s = (Chunk.ensureCapacity c (width f) ;; PullStream_read f) s.
Proof.
  destruct f; cbv beta iota delta [Chunk_read PullStream_read fmap bind Chunk.readByte
    Chunk.readShort Chunk.read3Bytes Chunk.readLong Chunk.readASCII3 Chunk.readASCII4 width];
    destruct (Chunk.ensureCapacity c _ s) as [[[]|e] s']; reflexivity.
Qed.

Lemma Chunk_read_ok c f s :
  width f <= Chunk.maxPosition c - position s ->
  width f <= maxPosition s - position s ->
  exists v, Chunk_read c f s = (Return v, PullStream.set_position s (position s + width f)).
Proof.
  intros Hc Hs. rewrite Chunk_read_unfold. unfold bind.
  rewrite chunk_ensureCapacity_ok by assumption. apply PullStream_read_ok; assumption.
Qed.

Lemma Chunk_read_short_chunk c f s :
  width f > Chunk.maxPosition c - position s ->
  Chunk_read c f s = (Throw (chunk_short_read c s (width f)), s).
Proof.
  intros Hc. rewrite Chunk_read_unfold. unfold bind.
  rewrite chunk_ensureCapacity_short by assumption. reflexivity.
Qed.

Lemma Chunk_read_short_stream c f s :
  width f <= Chunk.maxPosition c - position s ->
  width f > maxPosition s - position s ->
  Chunk_read c f s = (Throw (stream_short_read s (width f)), s).
Proof.
  intros Hc Hs. rewrite Chunk_read_unfold. unfold bind.
  rewrite chunk_ensureCapacity_ok by assumption. apply PullStream_read_short; assumption.
Qed.

Lemma skip_ok n s :
  0 < n -> n <= maxPosition s - position s ->
  PullStream.skip n s = (Return tt, PullStream.set_position s (position s + n)).
Proof.
  intros. unfold PullStream.skip, bind. case_decide; [lia|].
  rewrite ensureCapacity_ok by assumption. reflexivity.
Qed.

Lemma skip_short n s :
  0 < n -> n > maxPosition s - position s ->
  PullStream.skip n s = (Throw (stream_short_read s n), s).
Proof.
  intros. unfold PullStream.skip, bind. case_decide; [lia|].
  rewrite ensureCapacity_short by assumption. reflexivity.
Qed.

Lemma short_read_stream {A} s n :
  n > maxPosition s - position s ->
  short_read (A := A) s n (Throw (stream_short_read s n), s).
Proof. intros. exists (stream_short_read s n), (maxPosition s). repeat split. lia. Qed.

Lemma short_read_chunk {A} c s n :
  n > Chunk.maxPosition c - position s ->
  short_read (A := A) s n (Throw (chunk_short_read c s n), s).
Proof. intros. exists (chunk_short_read c s n), (Chunk.maxPosition c). repeat split. lia. Qed.

(** A request of [n > 0] bytes that one of its bounds does not leave is a
    short read. *)
Lemma perform_short q s :
  0 < bytes q s ->
  Exists (fun bound => bound - position s < bytes q s) (bounds q s) ->
  short_read s (bytes q s) (perform q s).
Proof.
  intros Hn Hb. destruct q as [f|n|c f|c [n|]]; simpl in *.
  - apply Exists_cons in Hb as [Hb|Hb]; [|inversion Hb].
    rewrite PullStream_read_short by lia. apply short_read_stream. lia.
  - apply Exists_cons in Hb as [Hb|Hb]; [|inversion Hb].
    unfold fmap, bind. rewrite skip_short by lia. apply short_read_stream. lia.
  - destruct (decide (width f > Chunk.maxPosition c - position s)).
    + rewrite Chunk_read_short_chunk by lia. apply short_read_chunk. lia.
    + apply Exists_cons in Hb as [Hb|Hb]; [lia|].
      apply Exists_cons in Hb as [Hb|Hb]; [|inversion Hb].
      rewrite Chunk_read_short_stream by lia. apply short_read_stream. lia.
  - unfold fmap, bind. case_decide; [lia|]. unfold bind.
    destruct (decide (n > Chunk.maxPosition c - position s)).
    + rewrite chunk_ensureCapacity_short by lia. apply short_read_chunk. lia.
    + apply Exists_cons in Hb as [Hb|Hb]; [lia|].
      apply Exists_cons in Hb as [Hb|Hb]; [|inversion Hb].
      rewrite chunk_ensureCapacity_ok by lia.
      rewrite skip_short by lia. apply short_read_stream. lia.
  - unfold fmap, bind. case_decide; [lia|]. unfold bind.
    apply Exists_cons in Hb as [Hb|Hb]; [lia|].
    apply Exists_cons in Hb as [Hb|Hb]; [|inversion Hb].
    rewrite chunk_ensureCapacity_ok by lia.
    rewrite skip_short by lia. apply short_read_stream. lia.
Qed.

(** A request that all its bounds leave returns, and advances the position
    by the number of bytes requested. *)
Lemma perform_ok q s :
  0 < bytes q s ->
  Forall (fun bound => bytes q s <= bound - position s) (bounds q s) ->
  exists v, perform q s = (Return v, PullStream.set_position s (position s + bytes q s)).
Proof.
  intros Hn Hb. destruct q as [f|n|c f|c [n|]]; simpl in *.
  - apply Forall_cons in Hb as [Hb _]. apply PullStream_read_ok. lia.
  - apply Forall_cons in Hb as [Hb _]. unfold fmap, bind. rewrite skip_ok by lia. eauto.
  - apply Forall_cons in Hb as [Hc Hb]. apply Forall_cons in Hb as [Hb _].
    apply Chunk_read_ok; lia.
  - apply Forall_cons in Hb as [Hc Hb]. apply Forall_cons in Hb as [Hb _].
    unfold fmap, bind. case_decide; [lia|]. unfold bind.
    rewrite chunk_ensureCapacity_ok by lia. rewrite skip_ok by lia. eauto.
  - apply Forall_cons in Hb as [Hc Hb]. apply Forall_cons in Hb as [Hb _].
    unfold fmap, bind. case_decide; [lia|]. unfold bind.
    rewrite chunk_ensureCapacity_ok by lia. rewrite skip_ok by lia. eauto.
Qed.

Lemma at_is_Some s i :
  0 <= position s + i < JS.len (buffer s) -> is_Some (PullStream.at_ s i).
Proof.
  intros H. unfold PullStream.at_, JS.get. case_decide; [|lia].
  apply lookup_lt_is_Some. unfold JS.len in H. lia.
Qed.

(** ** Sub-chunks are not clamped to their parent (C2) *)



(** ** The fixed-width reads of a chunk stay inside the buffer (C9) *)

(** C9: a fixed-width read through a chunk is a short read as soon as it
    would end beyond the bound of the chunk or beyond the length of the
    stream (the check of the delegated stream operation), whatever the bound
    of the chunk; and when it returns, every index it read is an index of
    the buffer. *)
Theorem chunk_read_inside_buffer c f s :
  populated s ->
  (position s + width f > Chunk.maxPosition c ->
   Chunk_read c f s = (Throw (chunk_short_read c s (width f)), s)) /\
  (position s + width f > JS.len (buffer s) ->
   short_read s (width f) (Chunk_read c f s)) /\
  (forall v s', Chunk_read c f s = (Return v, s') ->
     position s + width f <= JS.len (buffer s) /\
     s' = PullStream.set_position s (position s + width f) /\
     forall i, 0 <= i < width f -> is_Some (PullStream.at_ s i)).
Proof.
  intros [Hmax Hpos]. repeat split.
  - intros H. apply Chunk_read_short_chunk. lia.
  - intros H. destruct (decide (width f > Chunk.maxPosition c - position s)).
    + rewrite Chunk_read_short_chunk by lia. apply short_read_chunk. lia.
    + rewrite Chunk_read_short_stream by lia. apply short_read_stream. lia.
  - destruct (decide (width f > Chunk.maxPosition c - position s)).
    { rewrite Chunk_read_short_chunk in H by lia. discriminate. }
    destruct (decide (width f > maxPosition s - position s)).
    { rewrite Chunk_read_short_stream in H by lia. discriminate. }
    lia.
  - destruct (decide (width f > Chunk.maxPosition c - position s)).
    { rewrite Chunk_read_short_chunk in H by lia. discriminate. }
    destruct (decide (width f > maxPosition s - position s)).
    { rewrite Chunk_read_short_stream in H by lia. discriminate. }
    destruct (Chunk_read_ok c f s) as [v' Hv]; [lia..|]. congruence.
  - intros i Hi.
    destruct (decide (width f > Chunk.maxPosition c - position s)).
    { rewrite Chunk_read_short_chunk in H by lia. discriminate. }
    destruct (decide (width f > maxPosition s - position s)).
    { rewrite Chunk_read_short_stream in H by lia. discriminate. }
    apply at_is_Some. lia.
Qed.

Lemma chunk_read_inside_buffer_witness :
  let s := PullStream.fromFile [x01; x02; x03] in
  let c := PullStream_chunk "beyond" (Some 8) s in
  short_read s 4 (Chunk_read c FLong s).
Proof.
  apply (chunk_read_inside_buffer
           (PullStream_chunk "beyond" (Some 8) (PullStream.fromFile [x01; x02; x03]))
           FLong (PullStream.fromFile [x01; x02; x03])).
  - split; [reflexivity | simpl; lia].
  - simpl; unfold JS.len; simpl; lia.
Defined.

(** ** extend (C10) *)



(** ** The loops of the text reads: fuel and exhaustion *)

(** The loops leave by their condition, not by their fuel: any fuel that is
    at least the distance to the bound of the chunk gives the same result. *)
Lemma readZString88591_loop_fuel c fuel fuel' str s :
  (Chunk.fuel c s <= fuel)%nat -> (Chunk.fuel c s <= fuel')%nat ->
  Chunk.readZString88591_loop c fuel str s = Chunk.readZString88591_loop c fuel' str s.
Proof.
  unfold Chunk.fuel. revert fuel' str s.
  induction fuel as [|fuel IH]; intros [|fuel'] str s H H'; simpl; try reflexivity;
    case_decide; try reflexivity; try lia.
  destruct (JS.is_byte _ _); [reflexivity|]. apply IH; simpl; lia.
Qed.

Lemma readString88591_loop_fuel c fuel fuel' str s :
  (Chunk.fuel c s <= fuel)%nat -> (Chunk.fuel c s <= fuel')%nat ->
  Chunk.readString88591_loop c fuel str s = Chunk.readString88591_loop c fuel' str s.
Proof.
  unfold Chunk.fuel. revert fuel' str s.
  induction fuel as [|fuel IH]; intros [|fuel'] str s H H'; simpl; try reflexivity;
    case_decide; try reflexivity; try lia.
  apply IH; simpl; lia.
Qed.

Lemma readZStringUTF8_loop_fuel utf8 c fuel fuel' from s :
  (Chunk.fuel c s <= fuel)%nat -> (Chunk.fuel c s <= fuel')%nat ->
  Chunk.readZStringUTF8_loop utf8 c fuel from s = Chunk.readZStringUTF8_loop utf8 c fuel' from s.
Proof.
  unfold Chunk.fuel. revert fuel' s.
  induction fuel as [|fuel IH]; intros [|fuel'] s H H'; simpl; try reflexivity;
    case_decide; try reflexivity; try lia.
  destruct (JS.is_byte _ _); [reflexivity|]. apply IH; simpl; lia.
Qed.


Lemma scan_loop_fuel mask expected fuel fuel' magic s :
  (PullStream.remaining_fuel s <= fuel)%nat -> (PullStream.remaining_fuel s <= fuel')%nat ->
  PullStream.scan_loop mask expected fuel magic s =
  PullStream.scan_loop mask expected fuel' magic s.
Proof.
  unfold PullStream.remaining_fuel. revert fuel' magic s.
  induction fuel as [|fuel IH]; intros [|fuel'] magic s H H'; simpl; try reflexivity;
    unfold PullStream.hasMore; case_decide; try reflexivity; try lia.
  unfold bind, PullStream.readByte, bind.
  rewrite ensureCapacity_ok by lia. simpl.
  destruct (JS.strict_eq _ _); [reflexivity|]. apply IH; simpl; lia.
Qed.

(** When the loops end without a terminator, the chunk is exhausted. *)
Lemma readZString88591_loop_exhausted c fuel str s str' s' :
  (Chunk.fuel c s <= fuel)%nat ->
  Chunk.readZString88591_loop c fuel str s = (Return (Chunk.Exhausted str'), s') ->
  Chunk.maxPosition c - position s' <= 0.
Proof.
  unfold Chunk.fuel. revert str s.
  induction fuel as [|fuel IH]; intros str s H; simpl.
  - intros [= _ <-]. lia.
  - case_decide; [|intros [= _ <-]; lia].
    destruct (JS.is_byte _ _); [discriminate|]. apply IH. simpl. lia.
Qed.

Lemma readZStringUTF8_loop_exhausted utf8 c fuel from s u s' :
  (Chunk.fuel c s <= fuel)%nat ->
  Chunk.readZStringUTF8_loop utf8 c fuel from s = (Return (Chunk.Exhausted u), s') ->
  Chunk.maxPosition c - position s' <= 0.
Proof.
  unfold Chunk.fuel. revert s.
  induction fuel as [|fuel IH]; intros s H; simpl.
  - intros [= _ <-]. lia.
  - case_decide; [|intros [= _ <-]; lia].
    destruct (JS.is_byte _ _); [discriminate|]. apply IH. simpl. lia.
Qed.

Lemma readZStringUTF16_loop_exhausted c fuel from bigEndian s r s' :
  (Chunk.fuel c s <= fuel)%nat ->
  Chunk.readZStringUTF16_loop c fuel from bigEndian s = (Return (Chunk.Exhausted r), s') ->
  Chunk.maxPosition c - position s' <= 1.
Proof.
  unfold Chunk.fuel. revert from bigEndian s.
  induction fuel as [|fuel IH]; intros from bigEndian s H; simpl.
  - intros [= _ <-]. lia.
  - case_decide; [|intros [= _ <-]; lia].
    repeat match goal with
           | |- context [if ?b then _ else _] => destruct b
           end; try discriminate; apply IH; simpl; lia.
Qed.

(** The loops never throw. *)
Lemma readZString88591_loop_returns c fuel str s :
  exists r s', Chunk.readZString88591_loop c fuel str s = (Return r, s').
Proof.
  revert str s. induction fuel as [|fuel IH]; intros str s; simpl; eauto.
  case_decide; eauto. destruct (JS.is_byte _ _); eauto.
Qed.

Lemma readZStringUTF8_loop_returns utf8 c fuel from s :
  exists r s', Chunk.readZStringUTF8_loop utf8 c fuel from s = (Return r, s').
Proof.
  revert s. induction fuel as [|fuel IH]; intros s; simpl; eauto.
  case_decide; eauto. destruct (JS.is_byte _ _); eauto.
Qed.

Lemma readZStringUTF16_loop_returns c fuel from bigEndian s :
  exists r s', Chunk.readZStringUTF16_loop c fuel from bigEndian s = (Return r, s').
Proof.
  revert from bigEndian s. induction fuel as [|fuel IH]; intros from bigEndian s; simpl; eauto.
  case_decide; eauto.
  repeat match goal with
         | |- context [if ?b then _ else _] => destruct b
         end; eauto.
Qed.

(** ** Short reads (C4) *)

Lemma readZString_throws utf8 z c s e s' :
  readZString utf8 z c false s = (Throw e, s') ->
  fields e = None /\ position s <= position s' /\
  Chunk.maxPosition c - terminator z < position s'.
Proof.
  destruct z; simpl.
  - unfold Chunk.readZString88591, bind.
    destruct (readZString88591_loop_returns c (Chunk.fuel c s) [] s) as (r & s1 & E).
    pose proof (stays_readZString88591_loop c (Chunk.fuel c s) [] s) as Hm.
    rewrite E in *. simpl in Hm. destruct r as [str|str]; [discriminate|].
    intros [= <- <-]. apply readZString88591_loop_exhausted in E; [|lia].
    destruct Hm. simpl. split; [reflexivity | lia].
  - unfold Chunk.readZStringUTF8, bind.
    destruct (readZStringUTF8_loop_returns utf8 c (Chunk.fuel c s) (position s) s)
      as (r & s1 & E).
    pose proof (stays_readZStringUTF8_loop utf8 c (Chunk.fuel c s) (position s) s) as Hm.
    rewrite E in *. simpl in Hm. destruct r as [str|[]]; [discriminate|].
    intros [= <- <-]. apply readZStringUTF8_loop_exhausted in E; [|lia].
    destruct Hm. simpl. split; [reflexivity | lia].
  - unfold Chunk.readZStringUTF16, bind.
    destruct (readZStringUTF16_loop_returns c (Chunk.fuel c s) (position s) false s)
      as (r & s1 & E).
    pose proof (stays_readZStringUTF16_loop c (Chunk.fuel c s) (position s) false s) as Hm.
    rewrite E in *. simpl in Hm. destruct r as [str|[from be]]; [discriminate|].
    intros [= <- <-]. apply readZStringUTF16_loop_exhausted in E; [|lia].
    destruct Hm. simpl. split; [reflexivity | lia].
Qed.

(** C4, as stated, fails for the null-terminated reads: on a chunk over the
    two bytes "AB", which has no terminator, [readZString88591(false)] throws
    an exception that has a message and no field, and the position of the
    stream is then 2, not 0. *)
Lemma zstring_short_read_has_no_field :
  let s := PullStream.fromFile [x41; x42] in
  let c := PullStream_chunk "AB" None s in
  ~ (exists n, short_read s n (Chunk.readZString88591 c false s)).
Proof.
  intros s c (n & e & bound & H & _). vm_compute in H. discriminate.
Qed.

(** C4 (amended): a fixed-width read or a skip, on the stream or through a
    chunk, of [n > 0] bytes when one of the active bounds (the bound of the
    chunk, the length of the stream) leaves fewer than [n] bytes, throws a
    short-read exception that carries the position, that bound and [n], and
    returns nothing and leaves the stream as it was.  The null-terminated
    reads with [allowShortRead] false throw, when they find no terminator, an
    exception that carries a message only, and the stream is then at the end
    of the chunk (less than a terminator before its bound), not where the
    read started. *)
Theorem boundary_violations utf8 q s z c :
  (0 < bytes q s ->
   Exists (fun bound => bound - position s < bytes q s) (bounds q s) ->
   short_read s (bytes q s) (perform q s)) /\
  (forall e s', readZString utf8 z c false s = (Throw e, s') ->
     fields e = None /\ position s <= position s' /\
     Chunk.maxPosition c - terminator z < position s').
Proof.
  split; [apply perform_short | apply readZString_throws].
Qed.

Lemma boundary_violations_witness :
  let s := PullStream.fromFile [x41; x42; x43] in
  let c := PullStream_chunk "two" (Some 2) s in
  short_read s 3 (perform (ChunkRead c F3Bytes) s) /\
  (forall e s', readZString ascii_only ZUTF16 c false s = (Throw e, s') ->
     fields e = None /\ position s <= position s' /\
     Chunk.maxPosition c - 2 < position s').
Proof.
  split.
  - apply (boundary_violations ascii_only
             (ChunkRead (PullStream_chunk "two" (Some 2) (PullStream.fromFile [x41; x42; x43]))
                F3Bytes)
             (PullStream.fromFile [x41; x42; x43]) ZUTF16
             (PullStream_chunk "two" (Some 2) (PullStream.fromFile [x41; x42; x43]))).
    + simpl. lia.
    + simpl. left. lia.
  - apply (boundary_violations ascii_only
             (ChunkRead (PullStream_chunk "two" (Some 2) (PullStream.fromFile [x41; x42; x43]))
                F3Bytes)
             (PullStream.fromFile [x41; x42; x43]) ZUTF16
             (PullStream_chunk "two" (Some 2) (PullStream.fromFile [x41; x42; x43]))).
Defined.

(** ** Numbers *)

Lemma byteval_range b : 0 <= JS.byteval b < 256.
Proof.
  unfold JS.byteval. pose proof (Byte.to_N_bounded b). lia.
Qed.

Lemma wrap32_small z : - 2^31 <= z < 2^31 -> JS.wrap32 z = z.
Proof. intros H. unfold JS.wrap32. rewrite Z.mod_small; lia. Qed.

Lemma wrap32_high z : 2^31 <= z < 2^32 -> JS.wrap32 z = z - 2^32.
Proof.
  intros H. unfold JS.wrap32.
  replace (z + 2^31) with ((z - 2^31) + 1 * 2^32) by lia.
  rewrite Z.mod_add by lia. rewrite Z.mod_small; lia.
Qed.



(** [z << k] when nothing is shifted out. *)
Lemma shl_small z k :
  0 <= k -> 0 <= z -> z * 2^k < 2^31 -> JS.shl (JS.Int z) k = JS.Int (z * 2^k).
Proof.
  intros Hk Hz H. unfold JS.shl, JS.toInt32.
  assert (z <= z * 2^k) by (pose proof (Z.pow_pos_nonneg 2 k); nia).
  rewrite (wrap32_small z) by lia. rewrite Z.shiftl_mul_pow2 by lia.
  rewrite wrap32_small by lia. reflexivity.
Qed.

(** [z << k] when the result needs all 32 bits. *)
Lemma shl_wrap z k :
  0 <= k -> 0 <= z < 2^31 -> JS.shl (JS.Int z) k = JS.Int (JS.wrap32 (z * 2^k)).
Proof.
  intros Hk Hz. unfold JS.shl, JS.toInt32.
  rewrite (wrap32_small z) by lia. rewrite Z.shiftl_mul_pow2 by lia. reflexivity.
Qed.




Lemma be_fold_4 b1 b2 b3 b4 :
  be_fold [b1; b2; b3; b4] =
  ((JS.byteval b1 * 256 + JS.byteval b2) * 256 + JS.byteval b3) * 256 + JS.byteval b4.
Proof. unfold be_fold. simpl. lia. Qed.

(** The value of [readLong]'s expression is the fold, wrapped to the signed
    32-bit range. *)
Lemma long_value b1 b2 b3 b4 :
  JS.add (JS.shl (JS.add (JS.shl (JS.add (JS.shl (JS.Int (JS.byteval b1)) 8)
                                         (JS.Int (JS.byteval b2))) 8)
                         (JS.Int (JS.byteval b3))) 8)
         (JS.Int (JS.byteval b4)) =
  JS.Int (JS.wrap32 (be_fold [b1; b2; b3; b4])).
Proof.
  rewrite be_fold_4.
  pose proof (byteval_range b1). pose proof (byteval_range b2).
  pose proof (byteval_range b3). pose proof (byteval_range b4).
  rewrite shl_small by lia. cbn [JS.add].
  rewrite shl_small by lia. cbn [JS.add].
  rewrite shl_wrap by lia. cbn [JS.add].
  change (2^8) with 256. f_equal.
  set (x := (JS.byteval b1 * 256 + JS.byteval b2) * 256 + JS.byteval b3) in *.
  assert (0 <= x < 2^24) by lia.
  destruct (Z.lt_ge_cases (x * 256) (2^31)).
  - rewrite !wrap32_small by lia. reflexivity.
  - rewrite !wrap32_high by lia. lia.
Qed.

Lemma short_value b1 b2 :
  JS.add (JS.shl (JS.Int (JS.byteval b1)) 8) (JS.Int (JS.byteval b2)) =
  JS.Int (be_fold [b1; b2]).
Proof.
  pose proof (byteval_range b1). pose proof (byteval_range b2).
  rewrite shl_small by lia. unfold be_fold. simpl. f_equal.
Qed.

Lemma three_bytes_value b1 b2 b3 :
  JS.add (JS.shl (JS.add (JS.shl (JS.Int (JS.byteval b1)) 8) (JS.Int (JS.byteval b2))) 8)
         (JS.Int (JS.byteval b3)) =
  JS.Int (be_fold [b1; b2; b3]).
Proof.
  pose proof (byteval_range b1). pose proof (byteval_range b2).
  pose proof (byteval_range b3).
  rewrite shl_small by lia. cbn [JS.add].
  rewrite shl_small by lia. unfold be_fold. simpl. f_equal.
Qed.


(** ** Big-endian reads (C7) *)

Lemma readShort_at s b1 b2 :
  2 <= maxPosition s - position s ->
  PullStream.at_ s 0 = Some b1 -> PullStream.at_ s 1 = Some b2 ->
  PullStream.readShort s =
  (Return (JS.Int (be_fold [b1; b2])), PullStream.set_position s (position s + 2)).
Proof.
  intros H H1 H2. unfold PullStream.readShort, bind.
  rewrite ensureCapacity_ok by lia.
  cbv beta iota zeta delta [PullStream.advance ret]. rewrite H1, H2. cbn [JS.toNumber].
  rewrite short_value. reflexivity.
Qed.

Lemma read3Bytes_at s b1 b2 b3 :
  3 <= maxPosition s - position s ->
  PullStream.at_ s 0 = Some b1 -> PullStream.at_ s 1 = Some b2 ->
  PullStream.at_ s 2 = Some b3 ->
  PullStream.read3Bytes s =
  (Return (JS.Int (be_fold [b1; b2; b3])), PullStream.set_position s (position s + 3)).
Proof.
  intros H H1 H2 H3. unfold PullStream.read3Bytes, bind.
  rewrite ensureCapacity_ok by lia.
  cbv beta iota zeta delta [PullStream.advance ret]. rewrite H1, H2, H3. cbn [JS.toNumber].
  rewrite three_bytes_value. reflexivity.
Qed.

Lemma readLong_at s b1 b2 b3 b4 :
  4 <= maxPosition s - position s ->
  PullStream.at_ s 0 = Some b1 -> PullStream.at_ s 1 = Some b2 ->
  PullStream.at_ s 2 = Some b3 -> PullStream.at_ s 3 = Some b4 ->
  PullStream.readLong s =
  (Return (JS.Int (JS.wrap32 (be_fold [b1; b2; b3; b4]))),
   PullStream.set_position s (position s + 4)).
Proof.
  intros H H1 H2 H3 H4. unfold PullStream.readLong, bind.
  rewrite ensureCapacity_ok by lia.
  cbv beta iota zeta delta [PullStream.advance ret]. rewrite H1, H2, H3, H4. cbn [JS.toNumber].
  rewrite long_value. reflexivity.
Qed.

Lemma len_cons b (l : JS.Buffer) : JS.len (b :: l) = 1 + JS.len l.
Proof. unfold JS.len. simpl length. lia. Qed.

Lemma len_nonneg (l : JS.Buffer) : 0 <= JS.len l.
Proof. unfold JS.len. lia. Qed.



(** ** The reads of the rest of a chunk (C8) *)


Lemma toString_range_byte_range b from to :
  0 <= from -> JS.toString_range b from to = byte_range b from to.
Proof.
  intros Hf. unfold JS.toString_range, byte_range, JS.len.
  rewrite (Z.max_r 0 from) by lia.
  destruct (Z.le_gt_cases to (Z.of_nat (length b))).
  - rewrite (Z.min_l to) by lia. reflexivity.
  - rewrite (Z.min_r to) by lia.
    destruct (Z.le_gt_cases from (Z.of_nat (length b))).
    + rewrite !take_ge; [reflexivity | rewrite length_drop; lia ..].
    + rewrite !(drop_ge b); [|lia..]. rewrite !take_nil. reflexivity.
Qed.





(** ** readZStringUTF16 (C5) *)

Lemma readZStringUTF16_returns c s :
  exists str s', Chunk.readZStringUTF16 c true s = (Return str, s').
Proof.
  unfold Chunk.readZStringUTF16, bind.
  destruct (readZStringUTF16_loop_returns c (Chunk.fuel c s) (position s) false s)
    as (r & s1 & E).
  rewrite E. destruct r as [str|[from be]]; unfold ret; eauto.
Qed.

Example utf16_unterminated :
  let s := PullStream.fromFile [xff; xfe; x41; x00; x42; x00; x43] in
  let c := PullStream_chunk "LE" None s in
  fst (Chunk.readZStringUTF16 c true s) = Return (JS.str "AB") /\
  returned (fst (Chunk.readZStringUTF16 c false s)) = false.
Proof. vm_compute. split; reflexivity. Qed.

(** *** Buffers as lists *)

Lemma get_middle (pre : list byte) x rest : JS.get (pre ++ x :: rest) (JS.len pre) = Some x.
Proof.
  unfold JS.get, JS.len. case_decide; [|lia].
  apply list_lookup_middle. lia.
Qed.




Lemma len_app (l k : list byte) : JS.len (l ++ k) = JS.len l + JS.len k.
Proof. unfold JS.len. rewrite length_app. lia. Qed.


(** *** The iterations of [readZStringUTF16] *)









(** *** Decoding *)



Lemma byte_range_middle (pre l post : list byte) :
  byte_range (pre ++ l ++ post) (JS.len pre) (JS.len pre + JS.len l) = l.
Proof.
  unfold byte_range, JS.len. rewrite Nat2Z.id.
  replace (Z.to_nat (Z.of_nat (length pre) + Z.of_nat (length l) - Z.of_nat (length pre)))
    with (length l) by lia.
  rewrite drop_app_length. apply take_app_length.
Qed.













(** *** The size of the buffer allocated by [_ucs2]

    [_ucs2] is called with [bigEndian] set only once the loop of
    [readZStringUTF16] has met a big-endian mark; then [from] is at most the
    bound of the chunk, and [new Buffer(to - from)] has a size that is not
    negative. *)
Lemma readZStringUTF16_loop_from c fuel from bigEndian s from' s' :
  from <= position s ->
  (bigEndian = true -> position s <= Chunk.maxPosition c) ->
  Chunk.readZStringUTF16_loop c fuel from bigEndian s =
    (Return (Chunk.Exhausted (from', true)), s') ->
  from' <= Chunk.maxPosition c.
Proof.
  revert from bigEndian s. induction fuel as [|fuel IH]; intros from bigEndian s Hf Hb; simpl.
  - intros [= <- -> <-]. specialize (Hb eq_refl). lia.
  - case_decide; [|intros [= <- -> <-]; specialize (Hb eq_refl); lia].
    repeat match goal with
           | |- context [if ?b then _ else _] => destruct b
           end; try discriminate; apply IH; simpl; intros; lia.
Qed.

Lemma readZStringUTF16_buffer_size c s from s' :
  Chunk.readZStringUTF16_loop c (Chunk.fuel c s) (position s) false s =
    (Return (Chunk.Exhausted (from, true)), s') ->
  0 <= Chunk.maxPosition c - from.
Proof.
  intros H. apply readZStringUTF16_loop_from in H; [lia | lia | discriminate].
Qed.

(** ** scan3Bytes and scanLong (C6) *)

Example scan_test :
  let s := PullStream.fromFile
             [x61; x2c; x20; x77; x68; x65; x72; x65; x20; x70; x75; x6c; x6c; x21] in
  let '(r1, s1) := PullStream.scan3Bytes 0x2C2077 s in
  let '(r2, s2) := PullStream.readLong s1 in
  let '(r3, s3) := PullStream.scanLong 0x70756C6C s2 in
  (r1, position s1, r2, r3, position s3) =
  (Return true, 4, Return (JS.Int 0x68657265), Return true, 13).
Proof. vm_compute. reflexivity. Qed.



(** *** The rolling window on lists *)






(** *** The magic number is the window *)






Lemma be_fold_2 b1 b2 : be_fold [b1; b2] = JS.byteval b1 * 256 + JS.byteval b2.
Proof. unfold be_fold. simpl. lia. Qed.










(** *** Patterns that do not start with a zero byte *)





(** *** The scans find the first occurrence of a pattern that does not start
    with a zero byte *)




Example scan_signed :
  let s := PullStream.fromFile [xff; x00; x00; x00] in
  PullStream.scanLong (-0x1000000) s = (Return true, PullStream.set_position s 4).
Proof. vm_compute. reflexivity. Qed.

Example scan_overlapping :
  let s := PullStream.fromFile [xaa; xaa; xbb; xaa] in
  PullStream.scan3Bytes 0xAABBAA s = (Return true, PullStream.set_position s 4).
Proof. vm_compute. reflexivity. Qed.

(** C6 (the code departs from the claim, which its documentation supports):
    - the magic number starts at 0, as if zero bytes came before the
      position: [scan3Bytes(0x000001)] on the buffer 01 02, where the bytes
      00 00 01 do not occur, returns true with the position at 1, and so does
      [scanLong(0x00000001)];
    - the magic number of [scanLong] is a signed 32-bit integer: on the
      buffer FF 00 00 00, [scanLong(0xFF000000)] returns false with the
      position at the end, although the bytes of the pattern occur at the
      offset 0 (the pattern is found when it is given as -0x1000000).
    For the patterns that start with a byte other than 00 the scans do what
    the claim says, [scanLong] for the signed value of the pattern:
    [scan3Bytes_finds], [scanLong_finds]. *)
Theorem scan_misses :
  (be_fold [x00; x00; x01] = 0x000001 /\
   (forall j, ~ occurs_at [x00; x00; x01] [x01; x02] j) /\
   PullStream.scan3Bytes 0x000001 (PullStream.fromFile [x01; x02]) =
   (Return true, PullStream.set_position (PullStream.fromFile [x01; x02]) 1)) /\
  (be_fold [x00; x00; x00; x01] = 0x00000001 /\
   (forall j, ~ occurs_at [x00; x00; x00; x01] [x01; x02] j) /\
   PullStream.scanLong 0x00000001 (PullStream.fromFile [x01; x02]) =
   (Return true, PullStream.set_position (PullStream.fromFile [x01; x02]) 1)) /\
  (be_fold [xff; x00; x00; x00] = 0xFF000000 /\
   first_at [xff; x00; x00; x00] [xff; x00; x00; x00] 0 /\
   PullStream.scanLong 0xFF000000 (PullStream.fromFile [xff; x00; x00; x00]) =
   (Return false, PullStream.set_position (PullStream.fromFile [xff; x00; x00; x00]) 4)).
Proof.
  assert (Hshort : forall X : list byte, (2 < length X)%nat ->
                     forall j, ~ occurs_at X [x01; x02] j).
  { intros X HX j H. unfold occurs_at in H. apply (f_equal length) in H.
    rewrite length_take, length_drop in H. cbn [length] in H. lia. }
  repeat split; try (vm_compute; reflexivity).
  - apply Hshort. simpl. lia.
  - apply Hshort. simpl. lia.
  - intros j Hj. lia.
Qed.

(** * Further properties *)

(** ** Requests: reads and skips of a number of bytes *)

Lemma set_position_same s : PullStream.set_position s (position s + 0) = s.
Proof. destruct s. unfold PullStream.set_position. simpl. f_equal. lia. Qed.

(** A request that asks for nothing is a skip, and does nothing. *)
Lemma perform_nothing q s :
  bytes q s <= 0 -> perform q s = (Return VUnit, s).
Proof.
  intros Hn. destruct q as [f|n|c f|c [n|]]; simpl in *.
  - destruct f; simpl in Hn; lia.
  - unfold fmap, bind, PullStream.skip. case_decide; [reflexivity | lia].
  - destruct f; simpl in Hn; lia.
  - unfold fmap, bind. case_decide; [reflexivity | lia].
  - unfold fmap, bind. case_decide; [reflexivity | lia].
Qed.

Lemma bounds_leave_or_not q s :
  Forall (fun bound => bytes q s <= bound - position s) (bounds q s) \/
  Exists (fun bound => bound - position s < bytes q s) (bounds q s).
Proof.
  induction (bounds q s) as [|bound l IH]; [left; constructor|].
  destruct (Z.le_gt_cases (bytes q s) (bound - position s)).
  - destruct IH as [IH|IH]; [left; constructor; assumption | right; right; assumption].
  - right. left. lia.
Qed.

Lemma perform_returns q s v s' :
  perform q s = (Return v, s') ->
  s' = PullStream.set_position s (position s + Z.max 0 (bytes q s)).
Proof.
  intros H. destruct (Z.le_gt_cases (bytes q s) 0) as [Hn|Hn].
  - rewrite perform_nothing in H by assumption. injection H as _ <-.
    rewrite Z.max_l by lia. symmetry. apply set_position_same.
  - rewrite Z.max_r by lia.
    destruct (bounds_leave_or_not q s) as [Hall|Hex].
    + destruct (perform_ok q s) as [v' Hv]; [lia | assumption |]. congruence.
    + assert (Hs : short_read s (bytes q s) (perform q s))
        by (apply perform_short; [lia | assumption]).
      destruct Hs as (e & bound & Hs & _). congruence.
Qed.

(** X1: every fixed-width read and every skip, on the stream or through a
    chunk, either returns with the position advanced by exactly the number of
    bytes requested (by nothing for a skip of [n <= 0]) and the rest of the
    stream as it was, or throws a short read that leaves the stream as it
    was. *)
Theorem request_advances_or_fails q s :
  (exists v, perform q s =
             (Return v, PullStream.set_position s (position s + Z.max 0 (bytes q s)))) \/
  short_read s (bytes q s) (perform q s).
Proof.
  destruct (Z.le_gt_cases (bytes q s) 0) as [Hn|Hn].
  - left. exists VUnit. rewrite perform_nothing by assumption.
    rewrite Z.max_l by lia. rewrite set_position_same. reflexivity.
  - destruct (bounds_leave_or_not q s) as [Hall|Hex].
    + left. rewrite Z.max_r by lia. apply perform_ok; [lia | assumption].
    + right. apply perform_short; [lia | assumption].
Qed.

(** X2: [hasMore(n)] tells whether a read of [n] bytes returns: on the
    stream exactly; through a chunk, the read returns exactly when both the
    chunk and the stream have [n] more bytes, so [chunk.hasMore(n)] alone
    does not promise it.  [hasMore()] is [hasMore(1)]. *)
Theorem hasMore_predicts_read c f s :
  (returned (fst (PullStream_read f s)) = true <->
   PullStream.hasMore (Some (width f)) s = true) /\
  (returned (fst (Chunk_read c f s)) = true <->
   Chunk.hasMore c (Some (width f)) s = true /\
   PullStream.hasMore (Some (width f)) s = true) /\
  PullStream.hasMore None s = PullStream.hasMore (Some 1) s /\
  Chunk.hasMore c None s = Chunk.hasMore c (Some 1) s.
Proof.
  unfold PullStream.hasMore, Chunk.hasMore. repeat split; try reflexivity.
  - intros H. case_decide as Hc; [|reflexivity].
    rewrite PullStream_read_short in H by lia. discriminate.
  - intros H. case_decide as Hc; [discriminate|].
    destruct (PullStream_read_ok f s) as [v Hv]; [lia|]. rewrite Hv. reflexivity.
  - case_decide as Hc; [|reflexivity].
    rewrite Chunk_read_short_chunk in H by lia. discriminate.
  - case_decide as Hc; [|reflexivity].
    destruct (decide (width f > Chunk.maxPosition c - position s)).
    + rewrite Chunk_read_short_chunk in H by lia. discriminate.
    + rewrite Chunk_read_short_stream in H by lia. discriminate.
  - intros [H1 H2]. repeat case_decide; try discriminate.
    destruct (Chunk_read_ok c f s) as [v Hv]; [lia..|]. rewrite Hv. reflexivity.
Qed.

Lemma skip_nothing n s : n <= 0 -> PullStream.skip n s = (Return tt, s).
Proof. intros. unfold PullStream.skip. case_decide; [reflexivity | lia]. Qed.

(** X3: two skips in a row return exactly when the skip of the sum returns,
    and then leave the same stream; when the second of the two skips is a
    short read, the first has already advanced the position. *)
Theorem skips_compose a b s :
  0 <= a -> 0 <= b ->
  let two := (PullStream.skip a ;; PullStream.skip b) s in
  let one := PullStream.skip (a + b) s in
  returned (fst two) = returned (fst one) /\
  (returned (fst one) = true -> two = one) /\
  (a <= maxPosition s - position s < a + b ->
   position (snd two) = position s + a /\ snd one = s).
Proof.
  intros Ha Hb. simpl. unfold bind.
  destruct (Z.eq_dec a 0) as [->|Ha0].
  { rewrite (skip_nothing 0) by lia. simpl.
    split; [reflexivity|]. split; [reflexivity|].
    intros H. rewrite !skip_short by lia. simpl. split; [lia | reflexivity]. }
  destruct (Z.eq_dec b 0) as [->|Hb0].
  { rewrite Z.add_0_r. split; [|split].
    - destruct (PullStream.skip a s) as [[[]|e] s1]; [|reflexivity].
      rewrite skip_nothing by lia. reflexivity.
    - intros _. destruct (PullStream.skip a s) as [[[]|e] s1]; [|reflexivity].
      rewrite skip_nothing by lia. reflexivity.
    - lia. }
  destruct (Z.le_gt_cases (a + b) (maxPosition s - position s)).
  - rewrite (skip_ok a), (skip_ok (a + b)) by lia.
    rewrite skip_ok by (simpl; lia). simpl.
    split; [reflexivity|]. split; [|lia].
    intros _. unfold PullStream.set_position. simpl. do 2 f_equal. lia.
  - rewrite (skip_short (a + b)) by lia. simpl.
    destruct (Z.le_gt_cases a (maxPosition s - position s)).
    + rewrite (skip_ok a) by lia. rewrite skip_short by (simpl; lia). simpl.
      split; [reflexivity|]. split; [discriminate|]. intros _. split; reflexivity.
    + rewrite (skip_short a) by lia. simpl.
      split; [reflexivity|]. split; [discriminate | lia].
Qed.

Lemma skips_compose_witness :
  let s := PullStream.fromFile [x01; x02; x03; x04] in
  (PullStream.skip 1 ;; PullStream.skip 2) s = PullStream.skip 3 s.
Proof.
  apply (skips_compose 1 2 (PullStream.fromFile [x01; x02; x03; x04])); try lia.
  reflexivity.
Defined.

(** X4: [chunk.skip()] does nothing when the position is at the bound of the
    chunk or beyond it; it moves the position to the bound when the bound is
    within the stream; and it is a short read of the stream, for the rest of
    the chunk, when the bound is beyond the end of the stream. *)
Theorem chunk_skip_rest c s :
  Chunk.skip c None s =
  if decide (Chunk.maxPosition c <= position s) then (Return tt, s)
  else if decide (Chunk.maxPosition c <= maxPosition s)
       then (Return tt, PullStream.set_position s (Chunk.maxPosition c))
       else (Throw (stream_short_read s (Chunk.maxPosition c - position s)), s).
Proof.
  unfold Chunk.skip. repeat case_decide; try lia; try reflexivity; unfold bind;
    rewrite chunk_ensureCapacity_ok by lia.
  - rewrite skip_ok by lia. f_equal. f_equal. lia.
  - rewrite skip_short by lia. reflexivity.
Qed.

(** X5: the chunks of a stream share its position: what a read or a skip
    that returns has consumed, through the stream or through any chunk, is
    no longer there for any other chunk nor for the stream. *)
Theorem chunks_share_position q s v s' c n :
  perform q s = (Return v, s') ->
  Chunk.hasMore c (Some n) s' = Chunk.hasMore c (Some (n + Z.max 0 (bytes q s))) s /\
  PullStream.hasMore (Some n) s' = PullStream.hasMore (Some (n + Z.max 0 (bytes q s))) s.
Proof.
  intros H. apply perform_returns in H. subst s'.
  unfold Chunk.hasMore, PullStream.hasMore. simpl.
  split; repeat case_decide; try reflexivity; lia.
Qed.

Lemma chunks_share_position_witness :
  let s := PullStream.fromFile [x01; x02; x03; x04] in
  let c1 := PullStream_chunk "first" (Some 3) s in
  let c2 := PullStream_chunk "second" (Some 3) s in
  Chunk.hasMore c2 (Some 2) (PullStream.set_position s 2) = Chunk.hasMore c2 (Some 4) s.
Proof.
  exact (proj1 (chunks_share_position
                  (ChunkRead (PullStream_chunk "first" (Some 3)
                                (PullStream.fromFile [x01; x02; x03; x04])) FShort)
                  (PullStream.fromFile [x01; x02; x03; x04])
                  (VNumber (JS.Int 258))
                  (PullStream.set_position (PullStream.fromFile [x01; x02; x03; x04]) 2)
                  (PullStream_chunk "second" (Some 3)
                     (PullStream.fromFile [x01; x02; x03; x04]))
                  2 eq_refl)).
Defined.

(** ** Scans *)











(** ** The bound of a chunk *)

Lemma perform_cases q s :
  snd (perform q s) = s \/
  (0 < bytes q s /\
   Forall (fun bound => bytes q s <= bound - position s) (bounds q s) /\
   snd (perform q s) = PullStream.set_position s (position s + bytes q s)).
Proof.
  destruct (Z.le_gt_cases (bytes q s) 0) as [Hn|Hn].
  - left. rewrite perform_nothing by assumption. reflexivity.
  - destruct (bounds_leave_or_not q s) as [Hall|Hex].
    + right. destruct (perform_ok q s ltac:(lia) Hall) as [v ->].
      split; [lia|]. split; [assumption | reflexivity].
    + left. destruct (perform_short q s ltac:(lia) Hex) as (e & b & -> & _). reflexivity.
Qed.

Lemma perform_moves q s bound :
  In bound (bounds q s) -> moves bound s (snd (perform q s)).
Proof.
  intros Hin. destruct (perform_cases q s) as [->|(Hn & Hall & ->)]; [apply moves_refl|].
  rewrite Forall_forall in Hall. apply list_elem_of_In in Hin. specialize (Hall _ Hin).
  apply moves_set_position. lia.
Qed.

(** X9: no operation of a chunk (a query, a skip, a fixed-width read, a text
    read), whether it returns or throws, moves the position back or takes it
    past the bound of the chunk, unless it was beyond already; the length of
    the stream and of its buffer are unchanged. *)
Theorem chunk_containment utf8 c o s :
  let s' := snd (chunk_op utf8 c o s) in
  position s <= position s' <= Z.max (position s) (Chunk.maxPosition c) /\
  maxPosition s' = maxPosition s /\
  JS.len (buffer s') = JS.len (buffer s).
Proof.
  assert (H : moves (Chunk.maxPosition c) s (snd (chunk_op utf8 c o s))).
  { destruct o as [n|n|f|r].
    - apply moves_refl.
    - apply (perform_moves (ChunkSkip c n)). simpl. auto.
    - apply (perform_moves (ChunkRead c f)). simpl. auto.
    - apply stays_chunk_text. }
  destruct H. simpl. lia.
Qed.

(** ** The position along a run *)

Lemma run_app utf8 ops1 ops2 w :
  run utf8 (ops1 ++ ops2) w = run utf8 ops2 (run utf8 ops1 w).
Proof. revert w. induction ops1 as [|o ops1 IH]; intros w; simpl; [reflexivity | apply IH]. Qed.

(** X10: the position never goes back: along any sequence of operations on
    a stream and on its chunks, returning or throwing, the position after a
    longer sequence is at least the position after each of its prefixes. *)
Theorem position_never_decreases utf8 before after w :
  position (stream (run utf8 before w)) <= position (stream (run utf8 (before ++ after) w)).
Proof.
  rewrite run_app. apply run_forward.
Qed.

(** ** The content of the buffer *)

Lemma keeps_buffer_bind {A B} (m : M PullStream.t A) (k : A -> M PullStream.t B) :
  keeps_buffer m -> (forall a, keeps_buffer (k a)) -> keeps_buffer (bind m k).
Proof.
  intros Hm Hk s. unfold bind. specialize (Hm s).
  destruct (m s) as [[a|e] s1]; simpl in *; [|assumption].
  rewrite Hk. assumption.
Qed.

Lemma keeps_buffer_fmap {A B} (f : A -> B) m : keeps_buffer m -> keeps_buffer (fmap f m).
Proof.
  intros Hm s. unfold fmap. apply keeps_buffer_bind; [assumption|]. intros a s'. reflexivity.
Qed.

Lemma keeps_buffer_perform q : keeps_buffer (perform q).
Proof.
  intros s. destruct (perform_cases q s) as [->|(_ & _ & ->)]; reflexivity.
Qed.

Lemma keeps_buffer_scan_loop mask expected fuel magic :
  keeps_buffer (PullStream.scan_loop mask expected fuel magic).
Proof.
  revert magic. induction fuel as [|fuel IH]; intros magic s; simpl; [reflexivity|].
  destruct (PullStream.hasMore None s); [|reflexivity].
  revert s. apply keeps_buffer_bind.
  - intros s. unfold PullStream.readByte, bind, PullStream.ensureCapacity.
    case_decide; reflexivity.
  - intros b. destruct (JS.strict_eq _ _); [intros s; reflexivity | apply IH].
Qed.

Lemma keeps_buffer_readZString88591_loop c fuel str :
  keeps_buffer (Chunk.readZString88591_loop c fuel str).
Proof.
  revert str. induction fuel as [|fuel IH]; intros str s; simpl; [reflexivity|].
  case_decide; [|reflexivity]. destruct (JS.is_byte _ _); [reflexivity|].
  rewrite IH. reflexivity.
Qed.

Lemma keeps_buffer_readZStringUTF8_loop utf8 c fuel from :
  keeps_buffer (Chunk.readZStringUTF8_loop utf8 c fuel from).
Proof.
  induction fuel as [|fuel IH]; intros s; simpl; [reflexivity|].
  case_decide; [|reflexivity]. destruct (JS.is_byte _ _); [reflexivity|].
  rewrite IH. reflexivity.
Qed.

Lemma keeps_buffer_readString88591_loop c fuel str :
  keeps_buffer (Chunk.readString88591_loop c fuel str).
Proof.
  revert str. induction fuel as [|fuel IH]; intros str s; simpl; [reflexivity|].
  case_decide; [|reflexivity]. rewrite IH. reflexivity.
Qed.

Lemma keeps_buffer_exec utf8 o w :
  rewrites o = false -> buffer (stream (snd (exec utf8 o w))) = buffer (stream w).
Proof.
  intros Ho. destruct o as [name l|i name l|i n|o|i o]; simpl;
    try (destruct (chunks w !! i) as [c|]); simpl; try reflexivity.
  - assert (H : keeps_buffer (stream_op o)).
    { destruct o as [n|n|f|x|x].
      - intros s. reflexivity.
      - apply (keeps_buffer_perform (StreamSkip n)).
      - apply (keeps_buffer_perform (StreamRead f)).
      - apply keeps_buffer_fmap. intros s. apply keeps_buffer_scan_loop.
      - apply keeps_buffer_fmap. intros s. apply keeps_buffer_scan_loop. }
    specialize (H (stream w)). destruct (stream_op o (stream w)). exact H.
  - assert (H : keeps_buffer (chunk_op utf8 c o)).
    { destruct o as [n|n|f|r].
      - intros s. reflexivity.
      - apply (keeps_buffer_perform (ChunkSkip c n)).
      - apply (keeps_buffer_perform (ChunkRead c f)).
      - destruct r as [a|a|a| | | |]; try discriminate Ho; simpl; apply keeps_buffer_fmap.
        + apply keeps_buffer_bind.
          * intros s. apply keeps_buffer_readZString88591_loop.
          * intros [str|str]; [|destruct a]; intros s; reflexivity.
        + intros s. unfold Chunk.readZStringUTF8.
          apply (keeps_buffer_bind (Chunk.readZStringUTF8_loop utf8 c _ _)).
          * apply keeps_buffer_readZStringUTF8_loop.
          * intros [str|[]]; [|destruct a]; intros s'; reflexivity.
        + intros s. apply keeps_buffer_readString88591_loop.
        + intros s. reflexivity.
        + intros s. reflexivity.
        + intros s. reflexivity. }
    specialize (H (stream w)). destruct (chunk_op utf8 c o (stream w)). exact H.
Qed.

(** X11: only [readZStringUTF16] writes: a sequence of operations on a
    stream and on its chunks without a [readZStringUTF16] leaves every byte
    of the buffer as it was. *)
Theorem buffer_untouched utf8 ops w :
  Forall (fun o => rewrites o = false) ops ->
  buffer (stream (run utf8 ops w)) = buffer (stream w).
Proof.
  revert w. induction ops as [|o ops IH]; intros w Hops; simpl; [reflexivity|].
  apply Forall_cons in Hops as [Ho Hops].
  rewrite IH by assumption. apply keeps_buffer_exec. assumption.
Qed.

Lemma buffer_untouched_witness :
  buffer (stream (run ascii_only
                    [NewChunk "tag" (Some 3);
                     OnChunk 0 (CText (ZString88591 false));
                     OnStream (SScan3Bytes 0x494433)]
                    (loaded [x41; x42; x00; x49; x44; x33]))) =
  [x41; x42; x00; x49; x44; x33].
Proof.
  apply (buffer_untouched ascii_only
           [NewChunk "tag" (Some 3);
            OnChunk 0 (CText (ZString88591 false));
            OnStream (SScan3Bytes 0x494433)]
           (loaded [x41; x42; x00; x49; x44; x33])).
  repeat constructor.
Defined.

(** ** What readZStringUTF16 writes *)

Lemma get_set_ne b i j v : i <> j -> JS.get (JS.set b j v) i = JS.get b i.
Proof.
  intros Hij. unfold JS.get, JS.set. repeat case_decide; try reflexivity.
  apply list_lookup_insert_ne. lia.
Qed.

Lemma readZStringUTF16_loop_writes c fuel i :
  forall from bigEndian s,
    i < position s \/
    position (snd (Chunk.readZStringUTF16_loop c fuel from bigEndian s)) < i ->
    JS.get (buffer (snd (Chunk.readZStringUTF16_loop c fuel from bigEndian s))) i =
    JS.get (buffer s) i.
Proof.
  induction fuel as [|fuel IH]; intros from bigEndian s; simpl; [reflexivity|].
  case_decide; [|reflexivity].
  repeat match goal with
         | |- context [if ?b then _ else _] => destruct b
         end; cbn [snd]; intros Hi;
    try (cbn [Chunk.poke PullStream.set_buffer PullStream.set_position buffer position] in *;
         rewrite ?get_set_ne by lia; reflexivity);
    match goal with
    | |- context [Chunk.readZStringUTF16_loop _ _ ?f ?b ?s1] =>
        pose proof (stays_readZStringUTF16_loop c fuel f b s1) as [_ _ Hfwd _];
        assert (Hp : position s1 = position s + 2) by reflexivity;
        assert (Hb : i < position s \/ position s + 2 < i ->
                     JS.get (buffer s1) i = JS.get (buffer s) i)
          by (intros;
              cbn [Chunk.poke PullStream.set_buffer PullStream.set_position buffer position];
              rewrite ?get_set_ne by lia; reflexivity);
        remember s1 as t eqn:Et; clear Et;
        rewrite (IH f b t) by lia; apply Hb; lia
    end.
Qed.

(** X12: [readZStringUTF16] writes into the buffer of the stream, but only
    between the position at which it starts and the position at which it
    leaves the stream (which is at most the bound of the chunk): every byte
    before the first and after the second is as it was, and the buffer keeps
    its length. *)
Theorem readZStringUTF16_writes c allowShortRead s i :
  let s' := snd (Chunk.readZStringUTF16 c allowShortRead s) in
  i < position s \/ position s' < i ->
  JS.get (buffer s') i = JS.get (buffer s) i /\
  JS.len (buffer s') = JS.len (buffer s) /\
  position s' <= Z.max (position s) (Chunk.maxPosition c).
Proof.
  unfold Chunk.readZStringUTF16, bind.
  pose proof (readZStringUTF16_loop_writes c (Chunk.fuel c s) i (position s) false s) as Hw.
  pose proof (stays_readZStringUTF16_loop c (Chunk.fuel c s) (position s) false s) as Hm.
  destruct (Chunk.readZStringUTF16_loop c (Chunk.fuel c s) (position s) false s)
    as [[[str|[from be]]|e] s1]; cbn [snd] in *;
    try destruct allowShortRead; cbn [snd ret throw];
    intros Hi; destruct Hm; (split; [apply Hw; assumption | split; [assumption | lia]]).
Qed.

Lemma readZStringUTF16_writes_witness :
  let s := {| buffer := [x41; xfe; xff; x00; x42; x00; x00; x43];
              position := 1; maxPosition := 8 |} in
  let c := PullStream_chunk "text" (Some 6) s in
  let s' := snd (Chunk.readZStringUTF16 c false s) in
  JS.get (buffer s') 0 = JS.get (buffer s) 0 /\
  JS.len (buffer s') = JS.len (buffer s) /\
  position s' <= Z.max (position s) (Chunk.maxPosition c).
Proof.
  apply (readZStringUTF16_writes
           (PullStream_chunk "text" (Some 6)
              {| buffer := [x41; xfe; xff; x00; x42; x00; x00; x43];
                 position := 1; maxPosition := 8 |})
           false
           {| buffer := [x41; xfe; xff; x00; x42; x00; x00; x43];
              position := 1; maxPosition := 8 |}
           0).
  left. simpl. lia.
Defined.

(** The byte at the position where [readZStringUTF16] leaves the stream can
    be written: on a malformed mark FF 00 at the end of a chunk, the byte
    that follows the chunk is replaced by 00. *)
Example readZStringUTF16_writes_after_chunk :
  let s := PullStream.fromFile [xff; x00; x41] in
  let c := PullStream_chunk "text" (Some 2) s in
  Chunk.readZStringUTF16 c true s =
  (Return [0x41FF], {| buffer := [xff; x41; x00]; position := 2; maxPosition := 3 |}).
Proof. reflexivity. Qed.

(** ** The null-terminated reads of ISO-8859-1 and UTF-8 text *)

Lemma is_byte_other b x : b <> x -> JS.is_byte (Some b) x = false.
Proof.
  intros Hb. simpl. destruct (Byte.eqb b x) eqn:E; [|reflexivity].
  apply Byte.byte_dec_bl in E. contradiction.
Qed.

Lemma app_one (pre : list byte) x rest : pre ++ x :: rest = (pre ++ [x]) ++ rest.
Proof. rewrite <- app_assoc. reflexivity. Qed.

Lemma len_one (pre : list byte) x : JS.len (pre ++ [x]) = JS.len pre + 1.
Proof. rewrite len_app. reflexivity. Qed.

(** The bytes that are not 00 are appended to the string. *)
Lemma zstring88591_body c body :
  forall fuel str pre rest max,
    Forall (fun b => b <> x00) body ->
    JS.len pre + JS.len body <= Chunk.maxPosition c ->
    Chunk.readZString88591_loop c (length body + fuel) str
      {| buffer := pre ++ body ++ rest; position := JS.len pre; maxPosition := max |} =
    Chunk.readZString88591_loop c fuel (str ++ latin1 body)
      {| buffer := pre ++ body ++ rest; position := JS.len pre + JS.len body;
         maxPosition := max |}.
Proof.
  induction body as [|b body IH]; intros fuel str pre rest max Hb Hc.
  - cbn [length Nat.add latin1 map app]. rewrite app_nil_r.
    replace (JS.len pre + JS.len []) with (JS.len pre) by (unfold JS.len; simpl; lia).
    reflexivity.
  - apply Forall_cons in Hb as [Hb0 Hb]. rewrite len_cons in Hc.
    pose proof (len_nonneg body).
    cbn [length Nat.add app Chunk.readZString88591_loop].
    unfold PullStream.at_. cbn [position buffer PullStream.set_position].
    case_decide; [|lia].
    rewrite Z.add_0_r, get_middle, is_byte_other by assumption.
    unfold PullStream.set_position. cbn [buffer position maxPosition].
    rewrite app_one. rewrite <- len_one with (x := b).
    rewrite IH by (assumption || rewrite len_one; lia).
    f_equal.
    + unfold latin1. simpl. rewrite <- app_assoc. reflexivity.
    + rewrite len_one, len_cons. f_equal. lia.
Qed.

Lemma zstringUTF8_body utf8 c body :
  forall fuel from pre rest max,
    Forall (fun b => b <> x00) body ->
    JS.len pre + JS.len body <= Chunk.maxPosition c ->
    Chunk.readZStringUTF8_loop utf8 c (length body + fuel) from
      {| buffer := pre ++ body ++ rest; position := JS.len pre; maxPosition := max |} =
    Chunk.readZStringUTF8_loop utf8 c fuel from
      {| buffer := pre ++ body ++ rest; position := JS.len pre + JS.len body;
         maxPosition := max |}.
Proof.
  induction body as [|b body IH]; intros fuel from pre rest max Hb Hc.
  - cbn [length Nat.add app].
    replace (JS.len pre + JS.len []) with (JS.len pre) by (unfold JS.len; simpl; lia).
    reflexivity.
  - apply Forall_cons in Hb as [Hb0 Hb]. rewrite len_cons in Hc.
    pose proof (len_nonneg body).
    cbn [length Nat.add app Chunk.readZStringUTF8_loop].
    unfold PullStream.at_. cbn [position buffer PullStream.set_position].
    case_decide; [|lia].
    rewrite Z.add_0_r, get_middle, is_byte_other by assumption.
    unfold PullStream.set_position. cbn [buffer position maxPosition].
    rewrite app_one. rewrite <- len_one with (x := b).
    rewrite IH by (assumption || rewrite len_one; lia).
    f_equal. rewrite len_one, len_cons. f_equal. lia.
Qed.

Lemma fuel_split c pre body (buf : JS.Buffer) max k :
  0 <= k ->
  Chunk.maxPosition c = JS.len pre + JS.len body + k ->
  Chunk.fuel c {| buffer := buf; position := JS.len pre; maxPosition := max |} =
  (length body + Z.to_nat k)%nat.
Proof. intros Hk Hc. unfold Chunk.fuel, JS.len in *. simpl. lia. Qed.

Lemma get_after (pre body : list byte) x rest :
  JS.get (pre ++ body ++ x :: rest) (JS.len pre + JS.len body) = Some x.
Proof. rewrite app_assoc, <- len_app. apply get_middle. Qed.

(** X13: on a run of bytes without a 00, [readZString88591] returns their
    ISO-8859-1 decoding, one code unit per byte: when a 00 follows inside the
    chunk, whatever [allowShortRead], and the position is then after that 00;
    when the chunk ends with the run, with [allowShortRead] only, and
    otherwise it throws, the position being at the end of the chunk in both
    cases. *)
Theorem readZString88591_decodes c pre body rest max :
  Forall (fun b => b <> x00) body ->
  let s := {| buffer := pre ++ body ++ rest; position := JS.len pre; maxPosition := max |} in
  let stop n := PullStream.set_position s (JS.len pre + JS.len body + n) in
  (forall more allowShortRead,
     rest = x00 :: more -> JS.len pre + JS.len body < Chunk.maxPosition c ->
     Chunk.readZString88591 c allowShortRead s = (Return (latin1 body), stop 1)) /\
  (Chunk.maxPosition c = JS.len pre + JS.len body ->
   Chunk.readZString88591 c true s = (Return (latin1 body), stop 0) /\
   exists e, Chunk.readZString88591 c false s = (Throw e, stop 0)).
Proof.
  intros Hb s stop. split.
  - intros more allowShortRead -> Hc. unfold Chunk.readZString88591, bind, s.
    rewrite (fuel_split c pre body _ max (Chunk.maxPosition c - JS.len pre - JS.len body))
      by lia.
    replace (Z.to_nat (Chunk.maxPosition c - JS.len pre - JS.len body))
      with (S (Z.to_nat (Chunk.maxPosition c - JS.len pre - JS.len body - 1))) by lia.
    rewrite zstring88591_body by (assumption || lia).
    cbn [Chunk.readZString88591_loop]. unfold PullStream.at_.
    cbn [position buffer PullStream.set_position maxPosition].
    case_decide; [|lia]. rewrite Z.add_0_r, get_after. reflexivity.
  - intros Hc. unfold Chunk.readZString88591, bind, s.
    rewrite (fuel_split c pre body _ max 0) by lia.
    rewrite zstring88591_body by (assumption || lia).
    cbn [Z.to_nat Chunk.readZString88591_loop]. unfold stop, s, PullStream.set_position.
    cbn [position buffer maxPosition]. rewrite Z.add_0_r. split; [reflexivity|].
    eexists. reflexivity.
Qed.

Lemma readZString88591_decodes_witness :
  let s := {| buffer := [x49; x44; x33; x00; x41];
              position := 0; maxPosition := 5 |} in
  let c := PullStream_chunk "tag" (Some 5) s in
  Chunk.readZString88591 c false s =
  (Return (JS.str "ID3"), PullStream.set_position s 4).
Proof.
  exact (proj1 (readZString88591_decodes
                  (PullStream_chunk "tag" (Some 5)
                     {| buffer := [x49; x44; x33; x00; x41];
                        position := 0; maxPosition := 5 |})
                  [] [x49; x44; x33] [x00; x41] 5
                  ltac:(repeat constructor; discriminate))
               [x41] false eq_refl eq_refl).
Defined.

(** X14: on a run of bytes without a 00, [readZStringUTF8] returns the
    UTF-8 decoding of the run (by the decoder of the platform): when a 00
    follows inside the chunk, whatever [allowShortRead], and the position is
    then after that 00; when the chunk ends with the run, with
    [allowShortRead] only, and otherwise it throws, the position being at the
    end of the chunk in both cases. *)
Theorem readZStringUTF8_decodes utf8 c pre body rest max :
  Forall (fun b => b <> x00) body ->
  let s := {| buffer := pre ++ body ++ rest; position := JS.len pre; maxPosition := max |} in
  let stop n := PullStream.set_position s (JS.len pre + JS.len body + n) in
  (forall more allowShortRead,
     rest = x00 :: more -> JS.len pre + JS.len body < Chunk.maxPosition c ->
     Chunk.readZStringUTF8 utf8 c allowShortRead s = (Return (utf8 body), stop 1)) /\
  (Chunk.maxPosition c = JS.len pre + JS.len body ->
   Chunk.readZStringUTF8 utf8 c true s = (Return (utf8 body), stop 0) /\
   exists e, Chunk.readZStringUTF8 utf8 c false s = (Throw e, stop 0)).
Proof.
  intros Hb s stop.
  assert (Hdec : forall tail to, to = JS.len pre + JS.len body ->
                   Chunk.toString_utf8 utf8 (pre ++ body ++ tail) (JS.len pre) to = utf8 body).
  { intros tail to ->. unfold Chunk.toString_utf8.
    rewrite toString_range_byte_range by apply len_nonneg.
    rewrite byte_range_middle. reflexivity. }
  split.
  - intros more allowShortRead -> Hc. unfold Chunk.readZStringUTF8, bind, s.
    rewrite (fuel_split c pre body _ max (Chunk.maxPosition c - JS.len pre - JS.len body))
      by lia.
    replace (Z.to_nat (Chunk.maxPosition c - JS.len pre - JS.len body))
      with (S (Z.to_nat (Chunk.maxPosition c - JS.len pre - JS.len body - 1))) by lia.
    cbn [position]. rewrite zstringUTF8_body by (assumption || lia).
    cbn [Chunk.readZStringUTF8_loop]. unfold PullStream.at_.
    cbn [position buffer PullStream.set_position maxPosition].
    case_decide; [|lia]. rewrite Z.add_0_r, get_after.
    cbn [JS.is_byte]. change (Byte.eqb x00 x00) with true. cbv beta iota.
    cbn [ret]. rewrite Hdec by lia. reflexivity.
  - intros Hc. unfold Chunk.readZStringUTF8, bind, s.
    rewrite (fuel_split c pre body _ max 0) by lia.
    cbn [position]. rewrite zstringUTF8_body by (assumption || lia).
    change (Z.to_nat 0) with 0%nat. cbn [Chunk.readZStringUTF8_loop].
    unfold stop, s, PullStream.set_position.
    cbn [position buffer maxPosition ret]. rewrite Z.add_0_r, Hdec by lia.
    split; [reflexivity|]. eexists. reflexivity.
Qed.

Lemma readZStringUTF8_decodes_witness :
  let s := {| buffer := [x49; x44; x33; x00; x41];
              position := 0; maxPosition := 5 |} in
  let c := PullStream_chunk "tag" (Some 5) s in
  Chunk.readZStringUTF8 ascii_only c false s =
  (Return (JS.str "ID3"), PullStream.set_position s 4).
Proof.
  exact (proj1 (readZStringUTF8_decodes ascii_only
                  (PullStream_chunk "tag" (Some 5)
                     {| buffer := [x49; x44; x33; x00; x41];
                        position := 0; maxPosition := 5 |})
                  [] [x49; x44; x33] [x00; x41] 5
                  ltac:(repeat constructor; discriminate))
               [x41] false eq_refl eq_refl).
Defined.

(** X15: [allowShortRead] changes the outcome of a null-terminated read,
    not what it consumes: with or without it the read leaves the same
    stream; with it the read always returns; and what the read returns
    without it, it returns with it. *)
Theorem allowShortRead_only_on_exhaustion utf8 z c s :
  snd (readZString utf8 z c true s) = snd (readZString utf8 z c false s) /\
  returned (fst (readZString utf8 z c true s)) = true /\
  forall str, fst (readZString utf8 z c false s) = Return str <->
              fst (readZString utf8 z c true s) = Return str /\
              returned (fst (readZString utf8 z c false s)) = true.
Proof.
  destruct z; simpl.
  - unfold Chunk.readZString88591, bind.
    destruct (readZString88591_loop_returns c (Chunk.fuel c s) [] s) as ([str|str] & s1 & ->);
      simpl; (split; [reflexivity|]); (split; [reflexivity|]); intros str0;
      (split; [intros Hs; (discriminate Hs || (split; [exact Hs | reflexivity]))
              | intros [Hs Hr]; (discriminate Hr || exact Hs)]).
  - unfold Chunk.readZStringUTF8, bind.
    destruct (readZStringUTF8_loop_returns utf8 c (Chunk.fuel c s) (position s) s)
      as ([str|[]] & s1 & ->);
      simpl; (split; [reflexivity|]); (split; [reflexivity|]); intros str0;
      (split; [intros Hs; (discriminate Hs || (split; [exact Hs | reflexivity]))
              | intros [Hs Hr]; (discriminate Hr || exact Hs)]).
  - unfold Chunk.readZStringUTF16, bind.
    destruct (readZStringUTF16_loop_returns c (Chunk.fuel c s) (position s) false s)
      as ([str|[from be]] & s1 & ->);
      simpl; (split; [reflexivity|]); (split; [reflexivity|]); intros str0;
      (split; [intros Hs; (discriminate Hs || (split; [exact Hs | reflexivity]))
              | intros [Hs Hr]; (discriminate Hr || exact Hs)]).
Qed.

(** ** The values of the fixed-width reads, at any position *)

Lemma at_window s n i :
  0 <= position s -> 0 <= i < n ->
  PullStream.at_ s i = byte_range (buffer s) (position s) (position s + n) !! Z.to_nat i.
Proof.
  intros Hp Hi. unfold PullStream.at_, JS.get, byte_range. case_decide; [|lia].
  rewrite lookup_take_lt by lia. rewrite lookup_drop. f_equal. lia.
Qed.

Lemma window_length s n :
  populated s -> 0 <= n <= maxPosition s - position s ->
  length (byte_range (buffer s) (position s) (position s + n)) = Z.to_nat n.
Proof.
  intros [Hm Hp] Hn. unfold byte_range, JS.len in *.
  rewrite length_take, length_drop. lia.
Qed.

Lemma readByte_at s v :
  1 <= maxPosition s - position s -> PullStream.at_ s 0 = v ->
  PullStream.readByte s = (Return v, PullStream.set_position s (position s + 1)).
Proof.
  intros H H1. unfold PullStream.readByte, bind. rewrite ensureCapacity_ok by lia.
  cbv beta iota zeta delta [PullStream.advance ret]. rewrite H1. reflexivity.
Qed.

Lemma readASCII3_at s b1 b2 b3 :
  3 <= maxPosition s - position s ->
  PullStream.at_ s 0 = Some b1 -> PullStream.at_ s 1 = Some b2 ->
  PullStream.at_ s 2 = Some b3 ->
  PullStream.readASCII3 s =
  (Return (latin1 [b1; b2; b3]), PullStream.set_position s (position s + 3)).
Proof.
  intros H H1 H2 H3. unfold PullStream.readASCII3, bind.
  rewrite ensureCapacity_ok by lia.
  cbv beta iota zeta delta [PullStream.advance ret]. rewrite H1, H2, H3. reflexivity.
Qed.

Lemma readASCII4_at s b1 b2 b3 b4 :
  4 <= maxPosition s - position s ->
  PullStream.at_ s 0 = Some b1 -> PullStream.at_ s 1 = Some b2 ->
  PullStream.at_ s 2 = Some b3 -> PullStream.at_ s 3 = Some b4 ->
  PullStream.readASCII4 s =
  (Return (latin1 [b1; b2; b3; b4]), PullStream.set_position s (position s + 4)).
Proof.
  intros H H1 H2 H3 H4. unfold PullStream.readASCII4, bind.
  rewrite ensureCapacity_ok by lia.
  cbv beta iota zeta delta [PullStream.advance ret]. rewrite H1, H2, H3, H4. reflexivity.
Qed.

Lemma PullStream_read_decodes f s :
  populated s -> width f <= maxPosition s - position s ->
  PullStream_read f s =
  (Return (decode f (byte_range (buffer s) (position s) (position s + width f))),
   PullStream.set_position s (position s + width f)).
Proof.
  intros Hs Hn.
  assert (Hw : 0 <= width f) by (destruct f; simpl; lia).
  pose proof (window_length s (width f) Hs ltac:(lia)) as Hlen.
  assert (Hat : forall i, 0 <= i < width f ->
                  PullStream.at_ s i =
                  byte_range (buffer s) (position s) (position s + width f) !! Z.to_nat i)
    by (intros i Hi; apply at_window; [apply Hs | assumption]).
  destruct (byte_range (buffer s) (position s) (position s + width f))
    as [|b1 [|b2 [|b3 [|b4 [|b5 w]]]]];
    destruct f; simpl in Hlen, Hn; try (exfalso; lia);
    unfold PullStream_read, fmap, bind;
    match goal with
       | |- context [PullStream.readByte s] => rewrite (readByte_at s (Some b1))
       | |- context [PullStream.readShort s] => rewrite (readShort_at s b1 b2)
       | |- context [PullStream.read3Bytes s] => rewrite (read3Bytes_at s b1 b2 b3)
       | |- context [PullStream.readLong s] => rewrite (readLong_at s b1 b2 b3 b4)
       | |- context [PullStream.readASCII3 s] => rewrite (readASCII3_at s b1 b2 b3)
       | |- context [PullStream.readASCII4 s] => rewrite (readASCII4_at s b1 b2 b3 b4)
       end;
    first [ reflexivity
          | lia
          | match goal with
            | |- PullStream.at_ _ ?i = _ => apply (Hat i); simpl; lia
            end ].
Qed.

(** X16: at any position of a populated stream with enough bytes left, a
    fixed-width read consumes exactly the next bytes and returns their value:
    the byte itself ([readByte]), the big-endian number ([readShort],
    [read3Bytes]), the big-endian number as a signed 32-bit integer
    ([readLong]), one character per byte ([readASCII3], [readASCII4]); the
    same read through a chunk with enough bytes left returns the same. *)
Theorem fixed_reads_decode c f s :
  populated s -> width f <= maxPosition s - position s ->
  let window := byte_range (buffer s) (position s) (position s + width f) in
  let result := (Return (decode f window), PullStream.set_position s (position s + width f)) in
  length window = Z.to_nat (width f) /\
  PullStream_read f s = result /\
  (width f <= Chunk.maxPosition c - position s -> Chunk_read c f s = result).
Proof.
  intros Hs Hn. simpl. split; [|split].
  - apply window_length; [assumption|]. destruct f; simpl in *; lia.
  - apply PullStream_read_decodes; assumption.
  - intros Hc. rewrite Chunk_read_unfold. unfold bind.
    rewrite chunk_ensureCapacity_ok by assumption.
    apply PullStream_read_decodes; assumption.
Qed.

Lemma fixed_reads_decode_witness :
  let s := {| buffer := [x00; x49; x44; x33; x04]; position := 1; maxPosition := 5 |} in
  PullStream_read FASCII3 s = (Return (VString (JS.str "ID3")), PullStream.set_position s 4).
Proof.
  refine (proj1 (proj2 (fixed_reads_decode
                         (PullStream_chunk "tag" None
                            {| buffer := [x00; x49; x44; x33; x04];
                               position := 1; maxPosition := 5 |})
                         FASCII3
                         {| buffer := [x00; x49; x44; x33; x04];
                            position := 1; maxPosition := 5 |}
                         _ _))).
  - split; [reflexivity | simpl; lia].
  - simpl. lia.
Defined.

(** X17: [readLong] is two [readShort]s: where four bytes are left, the
    number it returns is [(hi << 16) + lo] for the numbers [hi] and [lo] that
    two [readShort]s in a row return, and both leave the same stream. *)
Theorem readLong_two_shorts s :
  populated s -> 4 <= maxPosition s - position s ->
  exists hi lo s1,
    PullStream.readShort s = (Return hi, s1) /\
    PullStream.readShort s1 = (Return lo, PullStream.set_position s (position s + 4)) /\
    PullStream.readLong s =
    (Return (JS.add (JS.shl hi 16) lo), PullStream.set_position s (position s + 4)).
Proof.
  intros Hs Hn.
  pose proof (window_length s 4 Hs ltac:(lia)) as Hlen.
  assert (Hat : forall i, 0 <= i < 4 ->
                  PullStream.at_ s i =
                  byte_range (buffer s) (position s) (position s + 4) !! Z.to_nat i)
    by (intros i Hi; apply at_window; [apply Hs | assumption]).
  destruct (byte_range (buffer s) (position s) (position s + 4))
    as [|b1 [|b2 [|b3 [|b4 [|b5 w]]]]]; simpl in Hlen; try (exfalso; lia).
  pose proof (Hat 0 ltac:(lia)) as H0. pose proof (Hat 1 ltac:(lia)) as H1.
  pose proof (Hat 2 ltac:(lia)) as H2. pose proof (Hat 3 ltac:(lia)) as H3.
  simpl in H0, H1, H2, H3.
  exists (JS.Int (be_fold [b1; b2])), (JS.Int (be_fold [b3; b4])),
    (PullStream.set_position s (position s + 2)).
  split; [apply readShort_at; (assumption || lia)|]. split.
  - rewrite (readShort_at _ b3 b4).
    + unfold PullStream.set_position. simpl. f_equal. f_equal. lia.
    + simpl. lia.
    + unfold PullStream.at_ in *. simpl. rewrite <- H2. f_equal. lia.
    + unfold PullStream.at_ in *. simpl. rewrite <- H3. f_equal. lia.
  - rewrite (readLong_at s b1 b2 b3 b4) by (assumption || lia).
    f_equal. f_equal.
    pose proof (byteval_range b1). pose proof (byteval_range b2).
    pose proof (byteval_range b3). pose proof (byteval_range b4).
    rewrite shl_wrap by (rewrite ?be_fold_2; lia).
    cbn [JS.add]. f_equal. rewrite be_fold_4, !be_fold_2.
    destruct (Z.lt_ge_cases (JS.byteval b1) 128).
    + rewrite !wrap32_small by lia. lia.
    + rewrite !wrap32_high by lia. lia.
Qed.

Lemma readLong_two_shorts_witness :
  let s := PullStream.fromFile [xff; x01; x02; x03; x04] in
  exists hi lo s1,
    PullStream.readShort s = (Return hi, s1) /\
    PullStream.readShort s1 = (Return lo, PullStream.set_position s (position s + 4)) /\
    PullStream.readLong s =
    (Return (JS.add (JS.shl hi 16) lo), PullStream.set_position s (position s + 4)).
Proof.
  apply (readLong_two_shorts (PullStream.fromFile [xff; x01; x02; x03; x04])).
  - split; [reflexivity | simpl; lia].
  - simpl. unfold JS.len. simpl. lia.
Defined.

(** ** The malformed byte-order mark of readZStringUTF16 *)






(** ** Leaving a chunk *)

Lemma through_moves utf8 c ops s :
  moves (Chunk.maxPosition c) s (through utf8 c ops s).
Proof.
  unfold through. revert s. induction ops as [|o ops IH]; intros s; simpl; [apply moves_refl|].
  eapply moves_trans; [|apply IH].
  destruct o as [n|n|f|r].
  - apply moves_refl.
  - apply (perform_moves (ChunkSkip c n)). simpl. auto.
  - apply (perform_moves (ChunkRead c f)). simpl. auto.
  - apply stays_chunk_text.
Qed.

(** X19: a chunk of [K] bytes taken where the stream has [K] bytes left can
    always be left by [skip()]: after any sequence of operations through the
    chunk, returning or throwing, [chunk.skip()] returns and the position is
    the end of the chunk, the position at which the chunk was taken plus
    [K]; [chunk.hasMore()] is then false. *)
Theorem skip_leaves_chunk utf8 name K ops s0 :
  0 <= K <= maxPosition s0 - position s0 ->
  let c := PullStream_chunk name (Some K) s0 in
  let s := through utf8 c ops s0 in
  Chunk.skip c None s = (Return tt, PullStream.set_position s (position s0 + K)) /\
  Chunk.hasMore c None (PullStream.set_position s (position s0 + K)) = false.
Proof.
  intros HK c s. pose proof (through_moves utf8 c ops s0) as [Hmax _ Hfwd Hbnd].
  fold s in Hmax, Hfwd, Hbnd. simpl in Hbnd. split.
  - unfold Chunk.skip. simpl. case_decide.
    + assert (position s = position s0 + K) as <- by lia. destruct s; reflexivity.
    + unfold bind. rewrite chunk_ensureCapacity_ok by (simpl; lia).
      rewrite skip_ok by lia. unfold PullStream.set_position. f_equal. f_equal. lia.
  - unfold Chunk.hasMore. simpl. case_decide; [reflexivity | lia].
Qed.

Lemma skip_leaves_chunk_witness :
  let s0 := PullStream.fromFile [x41; x42; x00; x43; x44; x45] in
  let c := PullStream_chunk "frame" (Some 5) s0 in
  let s := through ascii_only c [CText (ZString88591 false); CRead FLong] s0 in
  Chunk.skip c None s = (Return tt, PullStream.set_position s (position s0 + 5)) /\
  Chunk.hasMore c None (PullStream.set_position s (position s0 + 5)) = false.
Proof.
  apply (skip_leaves_chunk ascii_only "frame" 5
           [CText (ZString88591 false); CRead FLong]
           (PullStream.fromFile [x41; x42; x00; x43; x44; x45])).
  simpl. unfold JS.len. simpl. lia.
Defined.
